(** * managed-records: paginated retrieval of records

    A shallow embedding of [src/api/managed-records.js] and the
    properties of its query builder, its result transformer and its
    [retrieve] entry point.

    Modelling choices.
    - The numbers the program is given (page numbers, limits, ids,
      status codes) are JavaScript numbers with an integer value: a [Z]
      that some double equals. Lengths and comparisons are exact on
      them. What the program computes from them with [+], [-] and [*]
      is a double again: the exact result rounded to the nearest double
      (ties to even), or an infinity ([num], [round64]). Negative zero
      is not told apart from zero: the two are [===] and print alike.
    - [null] in [previousPage]/[nextPage] is [None]; an absent option
      ([undefined]) is [None] as well, and default parameters are
      resolved where the source resolves them.
    - Record objects live in a store and arrays hold references to them,
      because [filterOpenRecs] writes [isPrimary] into the very objects
      of the array it is given.  A slot whose reference is not bound in
      the store stands for a slot that holds [null] or [undefined]:
      reading a property of it throws a [TypeError].
    - Synchronous code that may throw and promise chains are both
      computations over the world (store and console) that end in a
      returned value or a thrown one; [.then] is sequencing and [.catch]
      is the handler.
    - The transport ([fetch]), the rendering of a URI object (urijs)
      and the conversion of a thrown value to a string (the value's own
      [toString], which may do anything or throw) are not part of the
      program: [retrieve] is parameterized by them. *)

From Stdlib Require Import ZArith String List Bool Lia.
From stdpp Require Import base option list gmap strings.

Local Open Scope string_scope.
Local Open Scope Z_scope.

(** ** Data model *)

Definition loc := positive.

(** A record of the endpoint, with the derived field [isPrimary] that
    [filterOpenRecs] adds ([None] while the field is absent). *)
Module Rec.
Record t := mk {
  id : Z;
  color : string;
  disposition : string;
  isPrimary : option bool
}.

(** [record.isPrimary = b] *)
Definition set_isPrimary (b : bool) (r : t) : t :=
  {| id := id r; color := color r; disposition := disposition r;
     isPrimary := Some b |}.
End Rec.

(** What the code may throw or reject with. [Error m] is the source's
    [Error(statusText)]; [TypeError] is raised by the engine on a
    property read of [null]/[undefined] or a call of a non-function;
    [Failure v] is a value the transport rejects with, under a name: it
    need not be an error object, nor have a conversion to a string (a
    Symbol, an object without a prototype). *)
Inductive exn :=
| Error (message : string)
| TypeError
| Failure (value : string).

(** The console holds the strings given to [console.log]. *)
Record world := World {
  store : gmap loc Rec.t;
  console : list string
}.

(** The value a response body parses to, as far as the code can tell
    the cases apart. [JOther] is any JSON value that is neither [null]
    nor an array (a number, a string, a boolean, a plain object). *)
Inductive jsval :=
| JUndefined
| JNull
| JArray (a : list loc)
| JOther.

(** ** Computations *)

Inductive outcome (A : Type) :=
| Returned (a : A)
| Thrown (e : exn).
Arguments Returned {A} a.
Arguments Thrown {A} e.

Definition Comp (A : Type) : Type := world → outcome A * world.

#[export] Instance comp_ret : MRet Comp := λ A a w, (Returned a, w).

#[export] Instance comp_bind : MBind Comp := λ A B f c w,
  match c w with
  | (Returned a, w') => f a w'
  | (Thrown e, w') => (Thrown e, w')
  end.

Definition throw {A} (e : exn) : Comp A := λ w, (Thrown e, w).

(** [c.catch(h)], and [try { c } catch (e) { h e }]. *)
Definition catch {A} (c : Comp A) (h : exn → Comp A) : Comp A := λ w,
  match c w with
  | (Returned a, w') => (Returned a, w')
  | (Thrown e, w') => h e w'
  end.

(** [console.log] of a string *)
Definition console_log (l : string) : Comp unit := λ w,
  (Returned tt, {| store := store w; console := (console w ++ [l])%list |}).

(** Property read on the value of an array slot. *)
Definition deref (l : loc) : Comp Rec.t := λ w,
  match store w !! l with
  | Some r => (Returned r, w)
  | None => (Thrown TypeError, w)
  end.

(** [record.isPrimary = b] on the object behind [l]. *)
Definition assign_isPrimary (l : loc) (b : bool) : Comp unit := λ w,
  match store w !! l with
  | Some r =>
      (Returned tt,
       {| store := <[l := Rec.set_isPrimary b r]> (store w);
          console := console w |})
  | None => (Thrown TypeError, w)
  end.

(** [Array.prototype.map], [reduce] and [filter] with a callback that is
    a computation; the callbacks run left to right. *)
Fixpoint mapM {A B} (f : A → Comp B) (l : list A) : Comp (list B) :=
  match l return Comp (list B) with
  | [] => mret []
  | x :: l' => y ← f x; ys ← mapM f l'; mret (y :: ys)
  end.

Fixpoint reduceM {A B} (f : B → A → Comp B) (l : list A) (acc : B) : Comp B :=
  match l return Comp B with
  | [] => mret acc
  | x :: l' => acc' ← f acc x; reduceM f l' acc'
  end.

Fixpoint filterM {A} (f : A → Comp bool) (l : list A) : Comp (list A) :=
  match l return Comp (list A) with
  | [] => mret []
  | x :: l' =>
      f x ≫= λ b : bool, ys ← filterM f l'; mret (if b then x :: ys else ys)
  end.

(** ** Numbers *)

(** What arithmetic on numbers of integer value ends in: such a number
    again, an infinity, or [NaN]. *)
Inductive num :=
| Num (z : Z)
| Infinity
| NegInfinity
| NaN.

(** The double nearest to the integer [z], ties to even. Up to [2 ^ 53]
    every integer is a double. Above, the doubles are [q * 2 ^ e] with
    [2 ^ 52 <= q < 2 ^ 53]: [z] is cut to its 53 leading bits and the
    rest decides the rounding; what reaches [2 ^ 1024] is an infinity. *)
Definition round64 (z : Z) : num :=
  let m := Z.abs z in
  if m <? 2 ^ 53 then Num z
  else
    let e := Z.log2 m - 52 in
    let q := m / 2 ^ e in
    let r := m mod 2 ^ e in
    let half := 2 ^ (e - 1) in
    let q' := if r <? half then q
              else if half <? r then q + 1
              else if Z.even q then q else q + 1 in
    let v := q' * 2 ^ e in
    if 2 ^ 1024 <=? v then (if z <? 0 then NegInfinity else Infinity)
    else Num (Z.sgn z * v).

Definition num_neg (a : num) : num :=
  match a with
  | Num x => Num (- x)
  | Infinity => NegInfinity
  | NegInfinity => Infinity
  | NaN => NaN
  end.

(** [a + b] *)
Definition num_add (a b : num) : num :=
  match a, b with
  | NaN, _ | _, NaN => NaN
  | Num x, Num y => round64 (x + y)
  | Infinity, NegInfinity | NegInfinity, Infinity => NaN
  | Infinity, _ | _, Infinity => Infinity
  | NegInfinity, _ | _, NegInfinity => NegInfinity
  end.

(** [a - b] *)
Definition num_sub (a b : num) : num := num_add a (num_neg b).

(** [a * b] *)
Definition num_mul (a b : num) : num :=
  match a, b with
  | NaN, _ | _, NaN => NaN
  | Num x, Num y => round64 (x * y)
  | Num x, Infinity | Infinity, Num x =>
      if x =? 0 then NaN else if x <? 0 then NegInfinity else Infinity
  | Num x, NegInfinity | NegInfinity, Num x =>
      if x =? 0 then NaN else if x <? 0 then Infinity else NegInfinity
  | Infinity, Infinity | NegInfinity, NegInfinity => Infinity
  | Infinity, NegInfinity | NegInfinity, Infinity => NegInfinity
  end.

(** ** Arrays *)

(** The relative index of [Array.prototype.slice]: a negative argument
    counts from the end, and the result is clamped to [0 .. len]. *)
Definition relIndex (len i : Z) : Z :=
  if i <? 0 then Z.max (len + i) 0 else Z.min i len.

(** [a.slice(start, stop)] *)
Definition slice {A} (a : list A) (start stop : Z) : list A :=
  let len := Z.of_nat (length a) in
  let k := relIndex len start in
  let final := relIndex len stop in
  take (Z.to_nat (final - k)) (drop (Z.to_nat k) a).

(** [a.indexOf(x)] on an array of strings: the first index at which [x]
    occurs, or [-1]. *)
Fixpoint indexOf_from (i : Z) (a : list string) (x : string) : Z :=
  match a with
  | [] => -1
  | y :: a' => if String.eqb y x then i else indexOf_from (i + 1) a' x
  end.

Definition indexOf (a : list string) (x : string) : Z := indexOf_from 0 a x.

(** ** Defaults *)

Module defaults.
Definition colors : list string := ["red"; "brown"; "blue"; "yellow"; "green"].
Definition limit : Z := 10.
End defaults.

(** [window.path] *)
Definition window_path : string := "http://localhost:3000/records".

(** ** Query builder *)

(** The options object: every field may be absent. *)
Module Options.
Record t := mk {
  page : option Z;
  colors : option (list string);
  limit : option Z
}.
(** [{}] *)
Definition empty : t := {| page := None; colors := None; limit := None |}.
End Options.

(** The query parameters: ["color[]"], [offset] and [limit]. *)
Module Query.
Record t := mk {
  color : list string;
  offset : num;
  limit : num
}.
End Query.

(** A URI object: the endpoint and its search part. *)
Module URI.
Record t := mk {
  base : string;
  search : option Query.t
}.
(** [new URI(url)] *)
Definition new (url : string) : t := {| base := url; search := None |}.
(** [uri.setSearch(q)] *)
Definition setSearch (q : Query.t) (u : t) : t :=
  {| base := base u; search := Some q |}.
End URI.

Definition calcOffset (page limit : option Z) : num :=
  let page := default 1 page in
  let limit := default defaults.limit limit in
  num_mul (num_sub (Num page) (Num 1)) (Num limit).

Definition buildUrlOpts (o : Options.t) : Query.t :=
  let limit := default defaults.limit (Options.limit o) in
  let colors := default defaults.colors (Options.colors o) in
  let page := default 1 (Options.page o) in
  {| Query.color := colors;
     Query.offset := calcOffset (Some page) (Some limit);
     Query.limit := num_add (Num limit) (Num 1) |}.

Definition buildUrl (url : string) (options : Options.t) : URI.t :=
  URI.setSearch (buildUrlOpts options) (URI.new url).

(** ** Result transformer *)

Definition isPrimeColor (color : string) : bool :=
  negb (indexOf ["red"; "blue"; "yellow"] color =? -1).

(** The formatted page. [open] holds the record objects themselves, that
    is, references into the store. *)
Module Page.
Record t := mk {
  ids : list Z;
  open : list loc;
  closedPrimaryCount : Z;
  previousPage : option num;
  nextPage : option num
}.
End Page.

(** The argument of [formatFinal]. *)
Module FormatOpts.
Record t := mk {
  curPage : Z;
  limit : option Z;
  records : jsval
}.
End FormatOpts.

(** A default parameter [records = []]. *)
Definition orEmpty (records : jsval) : jsval :=
  match records with
  | JUndefined => JArray []
  | v => v
  end.

(** Use of a value as an array ([v.length], [v.slice(..)], [v.map(..)]):
    [null] and [undefined] have no properties, and on any other
    non-array [slice] or [map] is not a function. *)
Definition as_array (v : jsval) : Comp (list loc) :=
  match v with
  | JArray a => mret a
  | _ => throw TypeError
  end.

Definition getIds (records : list loc) : Comp (list Z) :=
  mapM (λ record, r ← deref record; mret (Rec.id r)) records.

Definition filterOpenRecs (records : list loc) : Comp (list loc) :=
  reduceM (λ (open : list loc) (record : loc),
    r ← deref record;
    if String.eqb (Rec.disposition r) "open" then
      _ ← assign_isPrimary record (isPrimeColor (Rec.color r));
      mret (open ++ [record])%list
    else mret open) records [].

Definition getClosedPrime (records : list loc) : Comp (list loc) :=
  filterM (λ record,
    r ← deref record;
    mret (String.eqb (Rec.disposition r) "closed" && isPrimeColor (Rec.color r)))
    records.

Definition formatFinal (o : FormatOpts.t) : Comp Page.t :=
  let curPage := FormatOpts.curPage o in
  let limit := default defaults.limit (FormatOpts.limit o) in
  let records := orEmpty (FormatOpts.records o) in
  let previousPage :=
    if curPage =? 1 then None else Some (num_sub (Num curPage) (Num 1)) in
  a ← as_array records;
  let nextPage :=
    if Z.of_nat (length a) <=? limit then None
    else Some (num_add (Num curPage) (Num 1)) in
  let finalRecs := slice a 0 limit in
  ids ← getIds finalRecs;
  open ← filterOpenRecs finalRecs;
  closed ← getClosedPrime finalRecs;
  mret {| Page.ids := ids;
          Page.open := open;
          Page.closedPrimaryCount := Z.of_nat (length closed);
          Page.previousPage := previousPage;
          Page.nextPage := nextPage |}.

(** [new Promise] around [try { resolve(formatFinal(..)) } catch (error)
    { reject(error) }] *)
Definition retrievePromise (formatOpts : FormatOpts.t) : Comp Page.t :=
  catch (formatFinal formatOpts) (λ error, throw error).

(** ** Transport and orchestration *)

(** What [fetch] resolves with. [json] is the call [response.json()]. *)
Record response := Response {
  status : Z;
  statusText : string;
  json : Comp jsval
}.

Definition verifyStatus (r : response) : Comp jsval :=
  if (status r >=? 200) && (status r <? 300) then json r
  else throw (Error (statusText r)).

(** [options.page || 1]: [undefined] and [0] are falsy. *)
Definition page_or_1 (page : option Z) : Z :=
  match page with
  | Some p => if p =? 0 then 1 else p
  | None => 1
  end.

Section Transport.
(** The collaborators that are not part of the program: the rendering of
    a URI object, the transport, and the conversion of a thrown value to
    a string that a template literal performs on it. *)
Variable uri_toString : URI.t → string.
Variable fetch : string → Comp response.
Variable stringify : exn → Comp string.

Definition getRecords (url : string) : Comp jsval :=
  catch
    (response ← fetch url;
     records ← verifyStatus response;
     mret (orEmpty records))
    (λ error, throw error).

Definition retrieve (options : option Options.t) : Comp (option Page.t) :=
  let options := default Options.empty options in
  let url := uri_toString (buildUrl window_path options) in
  catch
    (records ← getRecords url;
     page ← retrievePromise
              {| FormatOpts.curPage := page_or_1 (Options.page options);
                 FormatOpts.limit := Some defaults.limit;
                 FormatOpts.records := orEmpty records |};
     mret (Some page))
    (λ error,
      s ← stringify error;
      _ ← console_log ("An error occurred during the request. " ++ s)%string;
      mret None).
End Transport.

(** * Vocabulary of the properties *)

(** ** Records behind an array *)

(** The array [a] holds, slot by slot, the record objects [rs]. *)
Definition holds (s : gmap loc Rec.t) (a : list loc) (rs : list Rec.t) : Prop :=
  Forall2 (λ l r, s !! l = Some r) a rs.

(** No slot of [a] is [null] or [undefined]. *)
Definition bound (s : gmap loc Rec.t) (a : list loc) : Prop :=
  Forall (λ l, is_Some (s !! l)) a.

Definition isOpen (r : Rec.t) : bool := String.eqb (Rec.disposition r) "open".

Definition closedPrime (r : Rec.t) : bool :=
  String.eqb (Rec.disposition r) "closed" && isPrimeColor (Rec.color r).

(** What [filterOpenRecs] does to a record it visits. *)
Definition annotate (r : Rec.t) : Rec.t :=
  Rec.set_isPrimary (isPrimeColor (Rec.color r)) r.

Definition touch (r : Rec.t) : Rec.t := if isOpen r then annotate r else r.

(** The store after [filterOpenRecs] has visited the slots [b]. *)
Definition touch_all (b : list loc) (s : gmap loc Rec.t) : gmap loc Rec.t :=
  foldl (λ s l, alter touch l s) s b.

(** The slots of [b] whose record is open, in the order of [b]. *)
Definition opens (s : gmap loc Rec.t) (b : list loc) : list loc :=
  List.filter (λ l, match s !! l with Some r => isOpen r | None => false end) b.

(** ** Failures of the chain *)

(** The diagnostic of [retrieve]'s handler, added to the console: [s] is
    the error as a string. *)
Definition logged (s : string) (w : world) : world :=
  {| store := store w;
     console := (console w ++
                 ["An error occurred during the request. " ++ s]%string)%list |}.

(** What the handler of [retrieve] does with the error [e] in the world
    [w], given the conversion to a string. *)
Definition handled (stringify : exn → Comp string) (e : exn) (w : world) :
    outcome (option Page.t) * world :=
  match stringify e w with
  | (Returned s, w') => (Returned None, logged s w')
  | (Thrown e', w') => (Thrown e', w')
  end.

(** A number below zero. *)
Definition num_negative (a : num) : Prop :=
  match a with
  | Num z => z < 0
  | NegInfinity => True
  | _ => False
  end.

(** Closed and of primary color, in the words of the specification. *)
Definition is_closed_primary (r : Rec.t) : bool :=
  String.eqb (Rec.disposition r) "closed" &&
  (String.eqb (Rec.color r) "red" || String.eqb (Rec.color r) "blue" ||
   String.eqb (Rec.color r) "yellow").

(** The status check of [verifyStatus]. *)
Definition ok_status (r : response) : Prop := 200 ≤ status r < 300.

Section Chain.
Variable uri_toString : URI.t → string.
Variable fetch : string → Comp response.

(** The URL [retrieve] requests. *)
Definition request_url (options : option Options.t) : string :=
  uri_toString (buildUrl window_path (default Options.empty options)).

(** The arguments [retrieve] hands to the transformer for the body
    [v]. *)
Definition format_opts (options : option Options.t) (v : jsval) : FormatOpts.t :=
  {| FormatOpts.curPage :=
       page_or_1 (Options.page (default Options.empty options));
     FormatOpts.limit := Some defaults.limit;
     FormatOpts.records := orEmpty v |}.

(** The ways the chain of [retrieve options], started in world [w],
    fails: with which error, and in which world. *)
Inductive chain_fails (options : option Options.t) (w : world) :
  exn → world → Prop :=
| transport_fails e w1 :
    fetch (request_url options) w = (Thrown e, w1) →
    chain_fails options w e w1
| status_fails r w1 :
    fetch (request_url options) w = (Returned r, w1) →
    ¬ ok_status r →
    chain_fails options w (Error (statusText r)) w1
| body_fails r w1 e w2 :
    fetch (request_url options) w = (Returned r, w1) →
    ok_status r →
    json r w1 = (Thrown e, w2) →
    chain_fails options w e w2
| transform_fails r w1 v w2 e w3 :
    fetch (request_url options) w = (Returned r, w1) →
    ok_status r →
    json r w1 = (Returned v, w2) →
    formatFinal (format_opts options v) w2 = (Thrown e, w3) →
    chain_fails options w e w3.
End Chain.

(** ** Sample inputs *)

(** A small store used to evaluate the code on concrete arrays: three
    records, of which the first is open and the other two are closed. *)
Definition sample_store : gmap loc Rec.t :=
  <[1%positive := Rec.mk 1 "red" "open" None]>
  (<[2%positive := Rec.mk 2 "green" "closed" None]>
  (<[3%positive := Rec.mk 3 "blue" "closed" None]> ∅)).

Definition sample_records : list Rec.t :=
  [Rec.mk 1 "red" "open" None; Rec.mk 2 "green" "closed" None;
   Rec.mk 3 "blue" "closed" None].

Definition sample_world : world := {| store := sample_store; console := [] |}.

(** Two transports to evaluate [retrieve] on: one answers 404, the other
    answers 200 with the body [null]. *)
Definition fetch_not_found (url : string) : Comp response :=
  mret {| status := 404; statusText := "Not Found"; json := mret JNull |}.

Definition fetch_null_body (url : string) : Comp response :=
  mret {| status := 200; statusText := "OK"; json := mret JNull |}.

(** A transport that answers 200 with the three sample records. *)
Definition fetch_sample (url : string) : Comp response :=
  mret {| status := 200; statusText := "OK";
          json := mret (JArray [1; 2; 3]%positive) |}.

(** A transport that answers 200 with no body at all, and one that
    rejects. *)
Definition fetch_no_body (url : string) : Comp response :=
  mret {| status := 200; statusText := "OK"; json := mret JUndefined |}.

Definition fetch_offline (url : string) : Comp response :=
  throw (Failure "offline").

(** Two conversions to a string. The plain one prints an error with its
    name and message and a rejection value by its name. Under the other
    one the values the transport rejects with have no conversion (a
    Symbol, an object without a prototype): converting one throws a
    [TypeError]. *)
Definition stringify_plain (e : exn) : Comp string :=
  match e with
  | Error m => mret (if String.eqb m "" then "Error" else "Error: " ++ m)%string
  | TypeError => mret "TypeError"
  | Failure v => mret v
  end.

Definition stringify_symbol (e : exn) : Comp string :=
  match e with
  | Failure v => throw TypeError
  | _ => stringify_plain e
  end.

(** An array whose second slot is [null]: nothing is stored at 9. *)
Definition sample_null_slot : list loc := [1; 9; 2]%positive.

(** * Properties *)

(** ** Running computations *)

Lemma bind_returned {A B} (c : Comp A) (f : A → Comp B) w a w' :
  c w = (Returned a, w') → (c ≫= f) w = f a w'.
Proof. intros H. unfold mbind, comp_bind. now rewrite H. Qed.

Lemma bind_thrown {A B} (c : Comp A) (f : A → Comp B) w e w' :
  c w = (Thrown e, w') → (c ≫= f) w = (Thrown e, w').
Proof. intros H. unfold mbind, comp_bind. now rewrite H. Qed.

(** Re-throwing in the handler changes nothing. *)
Lemma catch_rethrow {A} (c : Comp A) w :
  catch c (λ error, throw error) w = c w.
Proof. unfold catch, throw. now destruct (c w) as [[a|e] w']. Qed.

(** ** Numbers *)

Lemma round64_small z : Z.abs z < 2 ^ 53 → round64 z = Num z.
Proof.
  intros H. unfold round64.
  now destruct (Z.ltb_spec (Z.abs z) (2 ^ 53)); [|lia].
Qed.

(** Every integer up to [2 ^ 53] in absolute value is a double. *)
Lemma round64_exact z : Z.abs z ≤ 2 ^ 53 → round64 z = Num z.
Proof.
  intros H. destruct (Z.eq_dec (Z.abs z) (2 ^ 53)) as [E|E].
  - assert (z = 2 ^ 53 ∨ z = - 2 ^ 53) as [-> | ->] by lia;
      vm_compute; reflexivity.
  - apply round64_small. lia.
Qed.

(** Rounding keeps a negative number negative. *)
Lemma round64_negative z : z < 0 → num_negative (round64 z).
Proof.
  intros Hz. unfold round64. cbv zeta.
  destruct (Z.ltb_spec (Z.abs z) (2 ^ 53)) as [_|Hm]; [exact Hz|].
  set (m := Z.abs z) in *. set (e := Z.log2 m - 52).
  set (q := m / 2 ^ e).
  set (q' := if m mod 2 ^ e <? 2 ^ (e - 1) then q
             else if 2 ^ (e - 1) <? m mod 2 ^ e then q + 1
             else if Z.even q then q else q + 1).
  destruct (Z.leb_spec (2 ^ 1024) (q' * 2 ^ e)) as [_|_].
  - destruct (Z.ltb_spec z 0); [exact I|lia].
  - simpl. assert (0 < m) as Hm0 by lia.
    assert (53 ≤ Z.log2 m) as Hlog.
    { rewrite <- (Z.log2_pow2 53) by lia. now apply Z.log2_le_mono. }
    assert (0 < 2 ^ e) as He by (apply Z.pow_pos_nonneg; unfold e; lia).
    assert (2 ^ e ≤ m) as Hle.
    { transitivity (2 ^ Z.log2 m); [|now apply Z.log2_spec].
      apply Z.pow_le_mono_r; unfold e; lia. }
    assert (0 < q) as Hq by (apply Z.div_str_pos; lia).
    assert (q ≤ q') as Hq'.
    { unfold q'. destruct (_ <? _); [lia|].
      destruct (_ <? _); [lia|]. destruct (Z.even q); lia. }
    rewrite Z.sgn_neg by assumption. nia.
Qed.

Lemma num_add_1_exact x :
  Z.abs x < 2 ^ 53 → num_add (Num x) (Num 1) = Num (x + 1).
Proof. intros H. simpl. apply round64_exact. lia. Qed.

Lemma num_sub_1_exact x :
  Z.abs x < 2 ^ 53 → num_sub (Num x) (Num 1) = Num (x - 1).
Proof.
  intros H. unfold num_sub. simpl. change (x + -1) with (x - 1).
  apply round64_exact. lia.
Qed.

(** ** Arrays *)

Lemma relIndex_0 len : 0 ≤ len → relIndex len 0 = 0.
Proof. intros H. unfold relIndex. simpl. lia. Qed.

(** [a.slice(0, n)] keeps the first [n] elements when [n] is not
    negative, and drops the last [-n] elements when it is. *)
Lemma slice_0_nonneg {A} (a : list A) n :
  0 ≤ n → slice a 0 n = take (Z.to_nat n) a.
Proof.
  intros Hn. unfold slice. rewrite relIndex_0 by lia.
  change (Z.to_nat 0) with 0%nat. rewrite drop_0, Z.sub_0_r.
  unfold relIndex. destruct (Z.ltb_spec n 0) as [?|_]; [lia|].
  destruct (Z.le_ge_cases n (Z.of_nat (length a))) as [Hle|Hge].
  - now rewrite Z.min_l by lia.
  - rewrite Z.min_r by lia. rewrite Nat2Z.id.
    rewrite !take_ge by lia. reflexivity.
Qed.

Lemma slice_0_neg {A} (a : list A) n :
  n < 0 → slice a 0 n = take (length a - Z.to_nat (- n)) a.
Proof.
  intros Hn. unfold slice. rewrite relIndex_0 by lia.
  change (Z.to_nat 0) with 0%nat. rewrite drop_0, Z.sub_0_r.
  unfold relIndex. destruct (Z.ltb_spec n 0) as [_|?]; [|lia].
  f_equal. lia.
Qed.

(** Whatever the bound, [slice a 0 n] is a prefix of [a]. *)
Lemma slice_0_take {A} (a : list A) n :
  ∃ k : nat, ∀ (B : Type) (b : list B),
    length b = length a → slice b 0 n = take k b.
Proof.
  destruct (Z.ltb_spec n 0) as [Hn|Hn].
  - exists (length a - Z.to_nat (- n))%nat. intros B b Hb.
    rewrite slice_0_neg by lia. now rewrite Hb.
  - exists (Z.to_nat n). intros B b _. now apply slice_0_nonneg.
Qed.

Lemma indexOf_from_found i a x :
  indexOf_from i a x ≠ -1 → 0 ≤ i → In x a.
Proof.
  revert i. induction a as [|y a IH]; intros i H Hi; simpl in *.
  - congruence.
  - destruct (String.eqb_spec y x) as [->|_]; [now left|].
    right. apply (IH (i + 1)); [assumption|lia].
Qed.

Lemma indexOf_from_In i a x :
  In x a → 0 ≤ i → 0 ≤ indexOf_from i a x.
Proof.
  revert i. induction a as [|y a IH]; intros i H Hi; simpl in *.
  - contradiction.
  - destruct (String.eqb_spec y x) as [->|Hne]; [lia|].
    destruct H as [->|H]; [congruence|]. apply IH; [assumption|lia].
Qed.

(** The primary-color predicate, case-sensitive. *)
Lemma isPrimeColor_spec color :
  isPrimeColor color = true ↔
  color = "red" ∨ color = "blue" ∨ color = "yellow".
Proof.
  unfold isPrimeColor, indexOf. rewrite negb_true_iff, Z.eqb_neq. split.
  - intros H. apply indexOf_from_found in H; [|lia].
    simpl in H. intuition congruence.
  - intros H.
    assert (In color ["red"; "blue"; "yellow"]) as Hin
      by (simpl; intuition congruence).
    apply (indexOf_from_In 0) in Hin; lia.
Qed.
(** ** Records behind an array *)

Lemma holds_bound s a rs : holds s a rs → bound s a.
Proof.
  unfold holds, bound. induction 1 as [|l r a rs Hl _ IH]; constructor; eauto.
Qed.

Lemma holds_length s a rs : holds s a rs → length a = length rs.
Proof. apply Forall2_length. Qed.

Lemma holds_take s a rs n : holds s a rs → holds s (take n a) (take n rs).
Proof. apply Forall2_take. Qed.

Lemma holds_slice s a rs n : holds s a rs → holds s (slice a 0 n) (slice rs 0 n).
Proof.
  intros H. destruct (slice_0_take a n) as [k Hk].
  rewrite (Hk _ a eq_refl), (Hk _ rs (eq_sym (holds_length _ _ _ H))).
  now apply holds_take.
Qed.

Lemma isOpen_touch r : isOpen (touch r) = isOpen r.
Proof. unfold touch. now destruct (isOpen r) eqn:E. Qed.

Lemma closedPrime_touch r : closedPrime (touch r) = closedPrime r.
Proof. unfold touch. now destruct (isOpen r). Qed.

Lemma touch_touch r : touch (touch r) = touch r.
Proof.
  unfold touch at 1. rewrite isOpen_touch. unfold touch.
  now destruct (isOpen r).
Qed.

Lemma touch_open r : isOpen r = true → touch r = annotate r.
Proof. unfold touch. now intros ->. Qed.

Lemma alter_touch (s : gmap loc Rec.t) (l : loc) r :
  s !! l = Some r → alter touch l s = <[l := touch r]> s.
Proof.
  intros H. apply map_eq. intros j. rewrite lookup_alter, lookup_insert.
  case_decide; [subst; now rewrite H|reflexivity].
Qed.

Lemma touch_all_lookup_notin b (s : gmap loc Rec.t) (l : loc) :
  l ∉ b → touch_all b s !! l = s !! l.
Proof.
  revert s. induction b as [|x b IH]; intros s Hl; [reflexivity|].
  apply not_elem_of_cons in Hl as [Hne Hl]. simpl.
  rewrite IH by assumption. now apply lookup_alter_ne.
Qed.

Lemma touch_all_lookup_in b (s : gmap loc Rec.t) (l : loc) :
  l ∈ b → touch_all b s !! l = touch <$> s !! l.
Proof.
  revert s. induction b as [|x b IH]; intros s Hl; [now apply elem_of_nil in Hl|].
  simpl. destruct (decide (l ∈ b)) as [Hin|Hnin].
  - rewrite IH by assumption. rewrite lookup_alter. case_decide; [subst x|reflexivity].
    destruct (s !! l) as [r|]; simpl; [|reflexivity]. now rewrite touch_touch.
  - apply elem_of_cons in Hl as [->|Hl]; [|contradiction].
    rewrite touch_all_lookup_notin by assumption. apply lookup_alter_eq.
Qed.

Lemma bound_alter (s : gmap loc Rec.t) (l : loc) b : bound s b → bound (alter touch l s) b.
Proof.
  unfold bound. intros H. eapply Forall_impl; [exact H|].
  intros j Hj. now apply lookup_alter_is_Some.
Qed.

Lemma opens_alter (s : gmap loc Rec.t) (l : loc) b : opens (alter touch l s) b = opens s b.
Proof.
  unfold opens. induction b as [|x b IH]; [reflexivity|]. simpl. rewrite IH.
  rewrite lookup_alter. case_decide; [subst|reflexivity].
  destruct (s !! x) as [r|]; simpl; [|reflexivity]. now rewrite isOpen_touch.
Qed.

Lemma opens_cons (s : gmap loc Rec.t) (l : loc) b :
  opens s (l :: b) = (opens s [l] ++ opens s b)%list.
Proof.
  unfold opens. simpl.
  now destruct (match s !! l with Some r => isOpen r | None => false end).
Qed.

(** The store after the visit holds the touched records. *)
Lemma holds_touch_all (s : gmap loc Rec.t) (b0 b : list loc) rs :
  holds s b rs → b ⊆ b0 → holds (touch_all b0 s) b (map touch rs).
Proof.
  intros H Hsub. induction H as [|l r b rs Hl _ IH]; [constructor|].
  simpl. constructor.
  - rewrite touch_all_lookup_in by (apply Hsub; left). now rewrite Hl.
  - apply IH. intros x Hx. apply Hsub. now right.
Qed.

(** The open slots, read after the visit, are the open records in
    order, each annotated. *)
Lemma holds_opens (s : gmap loc Rec.t) (b0 b : list loc) rs :
  holds s b rs → b ⊆ b0 →
  holds (touch_all b0 s) (opens s b) (map annotate (List.filter isOpen rs)).
Proof.
  intros H Hsub. induction H as [|l r b rs Hl _ IH]; [constructor|].
  assert (holds (touch_all b0 s) (opens s b)
            (map annotate (List.filter isOpen rs))) as IH'.
  { apply IH. intros x Hx. apply Hsub. now right. }
  unfold opens in *. simpl. rewrite Hl.
  destruct (isOpen r) eqn:E; [|exact IH'].
  simpl. constructor; [|exact IH'].
  rewrite touch_all_lookup_in by (apply Hsub; left).
  rewrite Hl. simpl. now rewrite touch_open.
Qed.

(** ** The three passes over the final slice *)

Lemma deref_bound w l r : store w !! l = Some r → deref l w = (Returned r, w).
Proof. intros H. unfold deref. now rewrite H. Qed.

Lemma deref_null w l : store w !! l = None → deref l w = (Thrown TypeError, w).
Proof. intros H. unfold deref. now rewrite H. Qed.

Lemma getIds_run w a rs :
  holds (store w) a rs → getIds a w = (Returned (map Rec.id rs), w).
Proof.
  unfold getIds. induction 1 as [|l r a rs Hl _ IH]; [reflexivity|].
  cbn [mapM]. rewrite (bind_returned _ _ w (Rec.id r) w).
  - rewrite (bind_returned _ _ _ _ _ IH). reflexivity.
  - now rewrite (bind_returned _ _ _ _ _ (deref_bound _ _ _ Hl)).
Qed.

(** A [null] slot makes [getIds] throw, and nothing has been written. *)
Lemma getIds_null w a :
  ¬ bound (store w) a → getIds a w = (Thrown TypeError, w).
Proof.
  unfold getIds, bound. induction a as [|l a IH]; intros H.
  - destruct H. constructor.
  - cbn [mapM]. destruct (store w !! l) as [r|] eqn:Hl.
    + rewrite (bind_returned _ _ w (Rec.id r) w)
        by now rewrite (bind_returned _ _ _ _ _ (deref_bound _ _ _ Hl)).
      rewrite (bind_thrown _ _ w TypeError w); [reflexivity|].
      apply IH. intros Ha. apply H. constructor; [now rewrite Hl|exact Ha].
    + apply bind_thrown.
      now rewrite (bind_thrown _ _ _ _ _ (deref_null _ _ Hl)).
Qed.

Lemma filterOpenRecs_step w l r (acc : list loc) :
  store w !! l = Some r →
  (deref l ≫= λ r,
     if String.eqb (Rec.disposition r) "open" then
       _ ← assign_isPrimary l (isPrimeColor (Rec.color r));
       mret (acc ++ [l])%list
     else mret acc) w
  = (Returned (acc ++ opens (store w) [l])%list,
     {| store := alter touch l (store w); console := console w |}).
Proof.
  intros Hl. rewrite (bind_returned _ _ _ _ _ (deref_bound _ _ _ Hl)).
  unfold opens. simpl. rewrite Hl. rewrite (alter_touch _ _ _ Hl).
  unfold touch, isOpen. destruct (String.eqb (Rec.disposition r) "open").
  - unfold mbind, comp_bind, assign_isPrimary. rewrite Hl. reflexivity.
  - rewrite insert_id by assumption. rewrite app_nil_r.
    now destruct w.
Qed.

Lemma filterOpenRecs_from b : ∀ w acc,
  bound (store w) b →
  reduceM (λ (open : list loc) (record : loc),
    r ← deref record;
    if String.eqb (Rec.disposition r) "open" then
      _ ← assign_isPrimary record (isPrimeColor (Rec.color r));
      mret (open ++ [record])%list
    else mret open) b acc w
  = (Returned (acc ++ opens (store w) b)%list,
     {| store := touch_all b (store w); console := console w |}).
Proof.
  induction b as [|l b IH]; intros w acc Hb.
  - simpl. rewrite app_nil_r. now destruct w.
  - apply Forall_cons in Hb as [[r Hl] Hb]. cbn [reduceM].
    rewrite (bind_returned _ _ _ _ _ (filterOpenRecs_step w l r acc Hl)).
    rewrite IH by (apply bound_alter; exact Hb). cbn [store console].
    rewrite opens_alter, <- app_assoc, <- opens_cons. reflexivity.
Qed.

Lemma filterOpenRecs_run w b :
  bound (store w) b →
  filterOpenRecs b w
  = (Returned (opens (store w) b),
     {| store := touch_all b (store w); console := console w |}).
Proof. intros Hb. unfold filterOpenRecs. now rewrite filterOpenRecs_from. Qed.

(** [getClosedPrime] only reads; the objects it returns are the closed
    records of primary color, in order. *)
Lemma getClosedPrime_run w a rs :
  holds (store w) a rs →
  ∃ closed, getClosedPrime a w = (Returned closed, w) ∧
            holds (store w) closed (List.filter closedPrime rs).
Proof.
  unfold getClosedPrime. induction 1 as [|l r a rs Hl _ (closed & IH & Hc)].
  - exists []. split; [reflexivity|constructor].
  - exists (if closedPrime r then l :: closed else closed). split.
    + cbn [filterM]. rewrite (bind_returned _ _ w (closedPrime r) w)
        by now rewrite (bind_returned _ _ _ _ _ (deref_bound _ _ _ Hl)).
      now rewrite (bind_returned _ _ _ _ _ IH).
    + simpl. destruct (closedPrime r); [constructor|]; assumption.
Qed.

Lemma filter_closedPrime_touch rs :
  List.filter closedPrime (map touch rs) = map touch (List.filter closedPrime rs).
Proof.
  induction rs as [|r rs IH]; [reflexivity|]. simpl.
  rewrite closedPrime_touch. destruct (closedPrime r); simpl; now rewrite IH.
Qed.

(** ** The result transformer on an array of records *)

(** One run of [formatFinal] on an array whose slots hold records: the
    page it returns and the world it leaves. *)
Lemma formatFinal_run w curPage limit a rs :
  holds (store w) a rs →
  let L := default defaults.limit limit in
  formatFinal {| FormatOpts.curPage := curPage;
                 FormatOpts.limit := limit;
                 FormatOpts.records := JArray a |} w
  = (Returned
       {| Page.ids := map Rec.id (slice rs 0 L);
          Page.open := opens (store w) (slice a 0 L);
          Page.closedPrimaryCount :=
            Z.of_nat (length (List.filter closedPrime (slice rs 0 L)));
          Page.previousPage := if curPage =? 1 then None else Some (num_sub (Num curPage) (Num 1));
          Page.nextPage :=
            if Z.of_nat (length a) <=? L then None else Some (num_add (Num curPage) (Num 1)) |},
     {| store := touch_all (slice a 0 L) (store w); console := console w |}).
Proof.
  intros H L. unfold formatFinal. cbn [FormatOpts.curPage FormatOpts.limit
    FormatOpts.records orEmpty as_array]. fold L.
  pose proof (holds_slice _ _ _ L H) as Hs.
  rewrite (bind_returned _ _ w a w) by reflexivity.
  rewrite (bind_returned _ _ _ _ _ (getIds_run _ _ _ Hs)).
  rewrite (bind_returned _ _ _ _ _
             (filterOpenRecs_run _ _ (holds_bound _ _ _ Hs))).
  set (w' := {| store := touch_all (slice a 0 L) (store w);
                console := console w |}).
  assert (holds (store w') (slice a 0 L) (map touch (slice rs 0 L))) as Hs'
    by (now apply holds_touch_all).
  destruct (getClosedPrime_run w' _ _ Hs') as (closed & Hrun & Hc).
  rewrite (bind_returned _ _ _ _ _ Hrun).
  apply holds_length in Hc.
  rewrite filter_closedPrime_touch, length_map in Hc. now rewrite Hc.
Qed.

(** [formatFinal] on [null] or on a value that is not an array throws
    before anything is written. *)
Lemma formatFinal_not_array w curPage limit v :
  v = JNull ∨ v = JOther →
  formatFinal {| FormatOpts.curPage := curPage;
                 FormatOpts.limit := limit;
                 FormatOpts.records := v |} w
  = (Thrown TypeError, w).
Proof. now intros [-> | ->]. Qed.

(** A [null] slot inside the final slice makes it throw as well. *)
Lemma formatFinal_null_slot w curPage limit a :
  ¬ bound (store w) (slice a 0 (default defaults.limit limit)) →
  formatFinal {| FormatOpts.curPage := curPage;
                 FormatOpts.limit := limit;
                 FormatOpts.records := JArray a |} w
  = (Thrown TypeError, w).
Proof.
  intros H. unfold formatFinal. cbn [FormatOpts.curPage FormatOpts.limit
    FormatOpts.records orEmpty as_array].
  rewrite (bind_returned _ _ w a w) by reflexivity.
  now rewrite (bind_thrown _ _ _ _ _ (getIds_null _ _ H)).
Qed.
Lemma isOpen_spec r : isOpen r = true ↔ Rec.disposition r = "open".
Proof. unfold isOpen. apply String.eqb_eq. Qed.

Lemma closedPrime_spec r :
  closedPrime r = true ↔
  Rec.disposition r = "closed" ∧
  (Rec.color r = "red" ∨ Rec.color r = "blue" ∨ Rec.color r = "yellow").
Proof.
  unfold closedPrime.
  now rewrite andb_true_iff, String.eqb_eq, isPrimeColor_spec.
Qed.

(** ** Pagination pointers *)

(** C1. For every array of records, every current page and every limit,
    [formatFinal] returns a page whose [nextPage] is [curPage + 1], the
    sum the program computes, when the array is longer than the limit
    (in particular when it has [limit + 1] records) and [null] when it
    has at most [limit] records. The sum is the integer successor for
    every page number below [2 ^ 53] in absolute value. *)
Theorem formatFinal_nextPage w curPage limit a rs :
  holds (store w) a rs →
  let L := default defaults.limit limit in
  ∃ page w',
    formatFinal {| FormatOpts.curPage := curPage;
                   FormatOpts.limit := limit;
                   FormatOpts.records := JArray a |} w = (Returned page, w') ∧
    (Z.of_nat (length a) = L + 1 →
     Page.nextPage page = Some (num_add (Num curPage) (Num 1))) ∧
    (L < Z.of_nat (length a) →
     Page.nextPage page = Some (num_add (Num curPage) (Num 1))) ∧
    (Z.of_nat (length a) ≤ L → Page.nextPage page = None) ∧
    (Z.abs curPage < 2 ^ 53 →
     num_add (Num curPage) (Num 1) = Num (curPage + 1)).
Proof.
  intros H L. eexists _, _. split; [exact (formatFinal_run _ _ _ _ _ H)|].
  cbn [Page.nextPage]. fold L.
  split; [|split; [|split]]; try apply num_add_1_exact;
    destruct (Z.leb_spec (Z.of_nat (length a)) L); intros;
    lia || reflexivity.
Qed.

Lemma formatFinal_nextPage_witness :
  holds (store sample_world) [1; 2; 3]%positive sample_records ∧
  ∃ page w',
    formatFinal {| FormatOpts.curPage := 4;
                   FormatOpts.limit := Some 2;
                   FormatOpts.records := JArray [1; 2; 3]%positive |}
      sample_world = (Returned page, w') ∧
    (Z.of_nat (length [1; 2; 3]%positive) = 2 + 1 →
     Page.nextPage page = Some (num_add (Num 4) (Num 1))) ∧
    (2 < Z.of_nat (length [1; 2; 3]%positive) →
     Page.nextPage page = Some (num_add (Num 4) (Num 1))) ∧
    (Z.of_nat (length [1; 2; 3]%positive) ≤ 2 → Page.nextPage page = None) ∧
    (Z.abs 4 < 2 ^ 53 → num_add (Num 4) (Num 1) = Num (4 + 1)).
Proof.
  split; [repeat constructor|].
  apply (formatFinal_nextPage sample_world 4 (Some 2) [1; 2; 3]%positive
           sample_records).
  repeat constructor.
Defined.

(** C2. For every current page, the page [formatFinal] returns has
    [previousPage] [null] exactly when [curPage] is 1, and [curPage - 1],
    the difference the program computes, otherwise. The difference is
    the integer predecessor for every page number below [2 ^ 53] in
    absolute value. *)
Theorem formatFinal_previousPage w curPage limit a rs :
  holds (store w) a rs →
  ∃ page w',
    formatFinal {| FormatOpts.curPage := curPage;
                   FormatOpts.limit := limit;
                   FormatOpts.records := JArray a |} w = (Returned page, w') ∧
    (Page.previousPage page = None ↔ curPage = 1) ∧
    (curPage ≠ 1 →
     Page.previousPage page = Some (num_sub (Num curPage) (Num 1))) ∧
    (Z.abs curPage < 2 ^ 53 →
     num_sub (Num curPage) (Num 1) = Num (curPage - 1)).
Proof.
  intros H. eexists _, _. split; [exact (formatFinal_run _ _ _ _ _ H)|].
  cbn [Page.previousPage].
  split; [|split]; [| |apply num_sub_1_exact];
    destruct (Z.eqb_spec curPage 1); repeat split; intros; congruence.
Qed.

Lemma formatFinal_previousPage_witness :
  holds (store sample_world) [1; 2; 3]%positive sample_records ∧
  ∃ page w',
    formatFinal {| FormatOpts.curPage := 4;
                   FormatOpts.limit := None;
                   FormatOpts.records := JArray [1; 2; 3]%positive |}
      sample_world = (Returned page, w') ∧
    (Page.previousPage page = None ↔ 4 = 1) ∧
    (4 ≠ 1 → Page.previousPage page = Some (num_sub (Num 4) (Num 1))) ∧
    (Z.abs 4 < 2 ^ 53 → num_sub (Num 4) (Num 1) = Num (4 - 1)).
Proof.
  split; [repeat constructor|].
  apply (formatFinal_previousPage sample_world 4 None [1; 2; 3]%positive
           sample_records).
  repeat constructor.
Defined.

(** ** Query builder *)

(** The offset is the exact product when the page and the product are
    within [2 ^ 53]. *)
Lemma calcOffset_exact page limit :
  Z.abs page < 2 ^ 53 →
  Z.abs ((page - 1) * limit) ≤ 2 ^ 53 →
  calcOffset (Some page) (Some limit) = Num ((page - 1) * limit).
Proof.
  intros Hp Hm. unfold calcOffset. cbn [default]. unfold id.
  rewrite num_sub_1_exact by assumption. simpl. now apply round64_exact.
Qed.

(** C3. For every page that is at least 1 and every limit (absent: the
    default), the [offset] query parameter built by [buildUrlOpts]
    through [calcOffset] is [(page - 1) * limit], the product the
    program computes. It is the exact integer product whenever the page
    is below [2 ^ 53] and the product is at most [2 ^ 53]. *)
Theorem buildUrlOpts_offset page colors limit :
  1 ≤ page →
  let L := default defaults.limit limit in
  Query.offset (buildUrlOpts {| Options.page := Some page;
                                Options.colors := colors;
                                Options.limit := limit |})
  = num_mul (num_sub (Num page) (Num 1)) (Num L) ∧
  calcOffset (Some page) limit
  = num_mul (num_sub (Num page) (Num 1)) (Num L) ∧
  (page < 2 ^ 53 → Z.abs ((page - 1) * L) ≤ 2 ^ 53 →
   Query.offset (buildUrlOpts {| Options.page := Some page;
                                 Options.colors := colors;
                                 Options.limit := limit |})
   = Num ((page - 1) * L)).
Proof.
  intros Hp L. split; [reflexivity|]. split; [reflexivity|].
  intros Hlt Hm. unfold buildUrlOpts.
  cbn [Query.offset Options.page Options.limit]. fold L.
  cbn [default]. unfold id. apply calcOffset_exact; [lia|assumption].
Qed.

Lemma buildUrlOpts_offset_witness :
  1 ≤ 3 ∧
  Query.offset (buildUrlOpts {| Options.page := Some 3;
                                Options.colors := None;
                                Options.limit := Some 10 |})
  = num_mul (num_sub (Num 3) (Num 1)) (Num 10) ∧
  calcOffset (Some 3) (Some 10)
  = num_mul (num_sub (Num 3) (Num 1)) (Num 10) ∧
  (3 < 2 ^ 53 → Z.abs ((3 - 1) * 10) ≤ 2 ^ 53 →
   Query.offset (buildUrlOpts {| Options.page := Some 3;
                                 Options.colors := None;
                                 Options.limit := Some 10 |})
   = Num ((3 - 1) * 10)).
Proof.
  split; [lia|]. apply (buildUrlOpts_offset 3 None (Some 10)). lia.
Defined.

(** C4. Whatever the options, the [limit] query parameter put on the
    URI is the limit (absent: the default) plus one, the sum the
    program computes; it is the integer successor for every limit below
    [2 ^ 53] in absolute value. *)
Theorem buildUrlOpts_limit url o :
  let L := default defaults.limit (Options.limit o) in
  Query.limit (buildUrlOpts o) = num_add (Num L) (Num 1) ∧
  URI.search (buildUrl url o) = Some (buildUrlOpts o) ∧
  (Z.abs L < 2 ^ 53 → Query.limit (buildUrlOpts o) = Num (L + 1)).
Proof.
  intros L. split; [reflexivity|]. split; [reflexivity|].
  intros HL. unfold buildUrlOpts. cbn [Query.limit]. fold L.
  now apply num_add_1_exact.
Qed.

Lemma buildUrlOpts_limit_witness :
  Query.limit (buildUrlOpts Options.empty) = num_add (Num 10) (Num 1) ∧
  URI.search (buildUrl window_path Options.empty)
  = Some (buildUrlOpts Options.empty) ∧
  (Z.abs 10 < 2 ^ 53 → Query.limit (buildUrlOpts Options.empty) = Num (10 + 1)).
Proof. exact (buildUrlOpts_limit window_path Options.empty). Defined.

(** ** The derived views *)

(** C5, as stated, fails for a negative limit: [slice(0, -1)] drops the
    last record, so three records and limit [-1] give two ids, while
    [min(3, -1)] is [-1]. *)
Lemma formatFinal_ids_negative_limit :
  ∃ page,
    fst (formatFinal {| FormatOpts.curPage := 1;
                        FormatOpts.limit := Some (-1);
                        FormatOpts.records := JArray [1; 2; 3]%positive |}
           sample_world) = Returned page ∧
    Page.ids page = [1; 2] ∧
    Z.of_nat (length (Page.ids page))
    ≠ Z.min (Z.of_nat (length [1; 2; 3]%positive)) (-1).
Proof. eexists. split; [vm_compute; reflexivity|]. split; [reflexivity|]. discriminate. Qed.

(** C5, amended. For every array of records and every limit that is not
    negative, [ids] is the sequence of the [id]s of the first
    [min(records.length, limit)] records, in their order; it has
    [min(records.length, limit)] elements. *)
Theorem formatFinal_ids w curPage limit a rs :
  holds (store w) a rs →
  let L := default defaults.limit limit in
  0 ≤ L →
  ∃ page w',
    formatFinal {| FormatOpts.curPage := curPage;
                   FormatOpts.limit := limit;
                   FormatOpts.records := JArray a |} w = (Returned page, w') ∧
    Page.ids page
    = map Rec.id (take (Z.to_nat (Z.min (Z.of_nat (length rs)) L)) rs) ∧
    Z.of_nat (length (Page.ids page)) = Z.min (Z.of_nat (length a)) L.
Proof.
  intros H L HL. eexists _, _. split; [exact (formatFinal_run _ _ _ _ _ H)|].
  cbn [Page.ids]. fold L. rewrite slice_0_nonneg by assumption.
  rewrite (holds_length _ _ _ H). split.
  - f_equal. destruct (Z.le_ge_cases L (Z.of_nat (length rs))).
    + now rewrite Z.min_r by lia.
    + rewrite Z.min_l by lia. rewrite !take_ge by lia. reflexivity.
  - rewrite length_map, length_take. lia.
Qed.

Lemma formatFinal_ids_witness :
  holds (store sample_world) [1; 2; 3]%positive sample_records ∧
  0 ≤ default defaults.limit (Some 2) ∧
  ∃ page w',
    formatFinal {| FormatOpts.curPage := 1;
                   FormatOpts.limit := Some 2;
                   FormatOpts.records := JArray [1; 2; 3]%positive |}
      sample_world = (Returned page, w') ∧
    Page.ids page
    = map Rec.id (take (Z.to_nat (Z.min (Z.of_nat (length sample_records))
                                    (default defaults.limit (Some 2))))
                    sample_records) ∧
    Z.of_nat (length (Page.ids page))
    = Z.min (Z.of_nat (length [1; 2; 3]%positive))
        (default defaults.limit (Some 2)).
Proof.
  split; [repeat constructor|]. split; [simpl; lia|].
  apply (formatFinal_ids sample_world 1 (Some 2) [1; 2; 3]%positive
           sample_records).
  - repeat constructor.
  - simpl. lia.
Defined.

(** C6. For every array of records, the [open] list of the page is made
    of exactly the objects of the final slice whose disposition is
    ["open"], in their order; read after the call, each of them has
    disposition ["open"] and an [isPrimary] field that is [true] exactly
    when its color is ["red"], ["blue"] or ["yellow"]. The final slice
    is [records.slice(0, limit)], the first [limit] records when the
    limit is not negative. *)
Theorem formatFinal_open w curPage limit a rs :
  holds (store w) a rs →
  let L := default defaults.limit limit in
  ∃ page w',
    formatFinal {| FormatOpts.curPage := curPage;
                   FormatOpts.limit := limit;
                   FormatOpts.records := JArray a |} w = (Returned page, w') ∧
    Page.open page = opens (store w) (slice a 0 L) ∧
    holds (store w') (Page.open page)
      (map annotate (List.filter isOpen (slice rs 0 L))) ∧
    Forall (λ l, ∃ r, store w' !! l = Some r ∧
                      Rec.disposition r = "open" ∧
                      ∃ b, Rec.isPrimary r = Some b ∧
                           (b = true ↔ Rec.color r = "red" ∨
                                       Rec.color r = "blue" ∨
                                       Rec.color r = "yellow"))
           (Page.open page) ∧
    (0 ≤ L → slice rs 0 L = take (Z.to_nat L) rs).
Proof.
  intros H L. eexists _, _. split; [exact (formatFinal_run _ _ _ _ _ H)|].
  cbn [Page.open store]. fold L.
  assert (holds (touch_all (slice a 0 L) (store w)) (opens (store w) (slice a 0 L))
            (map annotate (List.filter isOpen (slice rs 0 L)))) as Ho.
  { apply holds_opens; [now apply holds_slice|reflexivity]. }
  split; [reflexivity|]. split; [exact Ho|]. split; [|apply slice_0_nonneg].
  revert Ho. generalize (opens (store w) (slice a 0 L)).
  generalize (slice rs 0 L). intros rs' o.
  induction rs' as [|r rs' IH] in o |- *; simpl.
  - intros Ho. apply Forall2_nil_inv_r in Ho as ->. constructor.
  - destruct (isOpen r) eqn:E; [|apply IH]. simpl. intros Ho.
    apply Forall2_cons_inv_r in Ho as (l & o' & Hl & Ho & ->).
    constructor; [|now apply IH].
    exists (annotate r). split; [exact Hl|]. split; [now apply isOpen_spec|].
    exists (isPrimeColor (Rec.color r)). split; [reflexivity|].
    apply isPrimeColor_spec.
Qed.

Lemma formatFinal_open_witness :
  holds (store sample_world) [1; 2; 3]%positive sample_records ∧
  ∃ page w',
    formatFinal {| FormatOpts.curPage := 1;
                   FormatOpts.limit := Some 2;
                   FormatOpts.records := JArray [1; 2; 3]%positive |}
      sample_world = (Returned page, w') ∧
    Page.open page = opens (store sample_world) (slice [1; 2; 3]%positive 0 2) ∧
    holds (store w') (Page.open page)
      (map annotate (List.filter isOpen (slice sample_records 0 2))) ∧
    Forall (λ l, ∃ r, store w' !! l = Some r ∧
                      Rec.disposition r = "open" ∧
                      ∃ b, Rec.isPrimary r = Some b ∧
                           (b = true ↔ Rec.color r = "red" ∨
                                       Rec.color r = "blue" ∨
                                       Rec.color r = "yellow"))
           (Page.open page) ∧
    (0 ≤ 2 → slice sample_records 0 2 = take (Z.to_nat 2) sample_records).
Proof.
  split; [repeat constructor|].
  apply (formatFinal_open sample_world 1 (Some 2) [1; 2; 3]%positive
           sample_records).
  repeat constructor.
Defined.

(** C7, as stated, fails for a negative limit: with two records and
    limit [-1] the final slice is the first record alone, which is
    closed and blue and is counted, while no record is among the first
    [min(2, -1)]. *)
Lemma formatFinal_closedPrimaryCount_negative_limit :
  ∃ page,
    fst (formatFinal {| FormatOpts.curPage := 1;
                        FormatOpts.limit := Some (-1);
                        FormatOpts.records := JArray [3; 2]%positive |}
           sample_world) = Returned page ∧
    holds (store sample_world) [3; 2]%positive
      [Rec.mk 3 "blue" "closed" None; Rec.mk 2 "green" "closed" None] ∧
    Page.closedPrimaryCount page = 1 ∧
    Page.closedPrimaryCount page
    ≠ Z.of_nat (length (List.filter closedPrime
        (take (Z.to_nat (Z.min (Z.of_nat (length [3; 2]%positive)) (-1)))
           [Rec.mk 3 "blue" "closed" None; Rec.mk 2 "green" "closed" None]))).
Proof.
  eexists. split; [vm_compute; reflexivity|].
  split; [repeat constructor|]. split; [reflexivity|]. discriminate.
Qed.

(** C7, amended. For every array of records and every limit that is not
    negative, [closedPrimaryCount] is the number of records among the
    first [min(records.length, limit)] whose disposition is ["closed"]
    and whose color is ["red"], ["blue"] or ["yellow"]; a record past
    the limit is not counted, so the count is at most
    [min(records.length, limit)]. *)
Theorem formatFinal_closedPrimaryCount w curPage limit a rs :
  holds (store w) a rs →
  let L := default defaults.limit limit in
  0 ≤ L →
  ∃ page w',
    formatFinal {| FormatOpts.curPage := curPage;
                   FormatOpts.limit := limit;
                   FormatOpts.records := JArray a |} w = (Returned page, w') ∧
    Page.closedPrimaryCount page
    = Z.of_nat (length (List.filter closedPrime
        (take (Z.to_nat (Z.min (Z.of_nat (length rs)) L)) rs))) ∧
    (∀ r, closedPrime r = true ↔
          Rec.disposition r = "closed" ∧
          (Rec.color r = "red" ∨ Rec.color r = "blue" ∨
           Rec.color r = "yellow")) ∧
    0 ≤ Page.closedPrimaryCount page ≤ Z.min (Z.of_nat (length rs)) L.
Proof.
  intros H L HL. eexists _, _. split; [exact (formatFinal_run _ _ _ _ _ H)|].
  cbn [Page.closedPrimaryCount]. fold L. rewrite slice_0_nonneg by assumption.
  assert (take (Z.to_nat L) rs
          = take (Z.to_nat (Z.min (Z.of_nat (length rs)) L)) rs) as ->.
  { destruct (Z.le_ge_cases L (Z.of_nat (length rs))).
    - now rewrite Z.min_r by lia.
    - rewrite Z.min_l by lia. rewrite !take_ge by lia. reflexivity. }
  split; [reflexivity|]. split; [exact closedPrime_spec|].
  pose proof (List.filter_length_le closedPrime
                (take (Z.to_nat (Z.min (Z.of_nat (length rs)) L)) rs)) as Hle.
  rewrite length_take in Hle. lia.
Qed.

Lemma formatFinal_closedPrimaryCount_witness :
  holds (store sample_world) [1; 2; 3]%positive sample_records ∧
  0 ≤ default defaults.limit (Some 2) ∧
  ∃ page w',
    formatFinal {| FormatOpts.curPage := 1;
                   FormatOpts.limit := Some 2;
                   FormatOpts.records := JArray [1; 2; 3]%positive |}
      sample_world = (Returned page, w') ∧
    Page.closedPrimaryCount page
    = Z.of_nat (length (List.filter closedPrime
        (take (Z.to_nat (Z.min (Z.of_nat (length sample_records))
                           (default defaults.limit (Some 2))))
           sample_records))) ∧
    (∀ r, closedPrime r = true ↔
          Rec.disposition r = "closed" ∧
          (Rec.color r = "red" ∨ Rec.color r = "blue" ∨
           Rec.color r = "yellow")) ∧
    0 ≤ Page.closedPrimaryCount page
      ≤ Z.min (Z.of_nat (length sample_records))
          (default defaults.limit (Some 2)).
Proof.
  split; [repeat constructor|]. split; [simpl; lia|].
  apply (formatFinal_closedPrimaryCount sample_world 1 (Some 2)
           [1; 2; 3]%positive sample_records).
  - repeat constructor.
  - simpl. lia.
Defined.

(** ** A page number below 1 *)

(** C9, as stated, fails: page 0 with limit 10 gives offset [-10], not
    0. *)
Lemma calcOffset_page_0 :
  0 < 1 ∧ 0 < 10 ∧
  calcOffset (Some 0) (Some 10) = Num (-10) ∧
  calcOffset (Some 0) (Some 10) ≠ Num 0 ∧
  Query.offset (buildUrlOpts {| Options.page := Some 0;
                                Options.colors := None;
                                Options.limit := Some 10 |}) ≠ Num 0.
Proof. repeat split; (lia || discriminate). Qed.

Lemma num_mul_negative_positive a limit :
  num_negative a → 0 < limit → num_negative (num_mul a (Num limit)).
Proof.
  intros Ha Hl. destruct a as [x| | |]; simpl in *; try contradiction.
  - apply round64_negative. nia.
  - destruct (Z.eqb_spec limit 0); [lia|].
    destruct (Z.ltb_spec limit 0); [lia|exact I].
Qed.

(** C9, amended. For every page below 1 and every positive limit, the
    computed offset is [(page - 1) * limit], the product the program
    computes: it is negative, never 0, and it is passed on as it is. It
    is the exact integer product, at most [- limit], whenever the page
    is above [- 2 ^ 53] and the product is at least [- 2 ^ 53]. *)
Theorem calcOffset_page_below_1 page limit colors :
  page < 1 → 0 < limit →
  calcOffset (Some page) (Some limit)
  = num_mul (num_sub (Num page) (Num 1)) (Num limit) ∧
  num_negative (calcOffset (Some page) (Some limit)) ∧
  calcOffset (Some page) (Some limit) ≠ Num 0 ∧
  Query.offset (buildUrlOpts {| Options.page := Some page;
                                Options.colors := colors;
                                Options.limit := Some limit |})
  = calcOffset (Some page) (Some limit) ∧
  (- 2 ^ 53 < page → - 2 ^ 53 ≤ (page - 1) * limit →
   calcOffset (Some page) (Some limit) = Num ((page - 1) * limit) ∧
   (page - 1) * limit ≤ - limit).
Proof.
  intros Hp Hl.
  assert (num_negative (calcOffset (Some page) (Some limit))) as Hneg.
  { unfold calcOffset. cbn [default]. unfold id.
    apply num_mul_negative_positive; [|assumption].
    unfold num_sub. simpl. apply round64_negative. lia. }
  split; [reflexivity|]. split; [exact Hneg|]. split; [|split].
  - intros E. rewrite E in Hneg. simpl in Hneg. lia.
  - reflexivity.
  - intros Hlo Hprod. split; [|nia].
    apply calcOffset_exact; [lia|]. assert ((page - 1) * limit ≤ 0) by nia. lia.
Qed.

Lemma calcOffset_page_below_1_witness :
  0 < 1 ∧ 0 < 10 ∧
  calcOffset (Some 0) (Some 10)
  = num_mul (num_sub (Num 0) (Num 1)) (Num 10) ∧
  num_negative (calcOffset (Some 0) (Some 10)) ∧
  calcOffset (Some 0) (Some 10) ≠ Num 0 ∧
  Query.offset (buildUrlOpts {| Options.page := Some 0;
                                Options.colors := None;
                                Options.limit := Some 10 |})
  = calcOffset (Some 0) (Some 10) ∧
  (- 2 ^ 53 < 0 → - 2 ^ 53 ≤ (0 - 1) * 10 →
   calcOffset (Some 0) (Some 10) = Num ((0 - 1) * 10) ∧
   (0 - 1) * 10 ≤ - 10).
Proof.
  split; [lia|]. split; [lia|].
  apply (calcOffset_page_below_1 0 10 None); lia.
Defined.

(** ** The orchestrator *)

Lemma orEmpty_orEmpty v : orEmpty (orEmpty v) = orEmpty v.
Proof. now destruct v. Qed.

Lemma ok_status_true r :
  ok_status r → (status r >=? 200) && (status r <? 300) = true.
Proof. unfold ok_status. intros H. apply andb_true_iff. lia. Qed.

Lemma ok_status_false r :
  ¬ ok_status r → (status r >=? 200) && (status r <? 300) = false.
Proof. unfold ok_status. intros H. apply andb_false_iff. lia. Qed.

Lemma verifyStatus_ok r w : ok_status r → verifyStatus r w = json r w.
Proof. intros H. unfold verifyStatus. now rewrite ok_status_true. Qed.

Lemma verifyStatus_error r w :
  ¬ ok_status r → verifyStatus r w = (Thrown (Error (statusText r)), w).
Proof. intros H. unfold verifyStatus. now rewrite ok_status_false. Qed.

Section Orchestration.
Variable uri_toString : URI.t → string.
Variable fetch : string → Comp response.
Variable stringify : exn → Comp string.

(** What [retrieve] does with the settled [getRecords]. *)
Lemma retrieve_unfold options w :
  retrieve uri_toString fetch stringify options w
  = match getRecords fetch (request_url uri_toString options) w with
    | (Returned v, w2) =>
        match formatFinal (format_opts options v) w2 with
        | (Returned page, w3) => (Returned (Some page), w3)
        | (Thrown e, w3) => handled stringify e w3
        end
    | (Thrown e, w2) => handled stringify e w2
    end.
Proof.
  unfold retrieve, retrievePromise, catch, mbind, comp_bind, request_url,
    format_opts, handled, console_log, logged, mret, comp_ret.
  destruct (getRecords _ _ w) as [[v|e] w2].
  - destruct (formatFinal _ w2) as [[page|e] w3]; [reflexivity|].
    unfold throw. cbn. now destruct (stringify e w3) as [[s|e'] w4].
  - cbn. now destruct (stringify e w2) as [[s|e'] w4].
Qed.

Lemma getRecords_unfold url w :
  getRecords fetch url w
  = match fetch url w with
    | (Returned r, w1) =>
        match verifyStatus r w1 with
        | (Returned v, w2) => (Returned (orEmpty v), w2)
        | (Thrown e, w2) => (Thrown e, w2)
        end
    | (Thrown e, w1) => (Thrown e, w1)
    end.
Proof.
  unfold getRecords. rewrite catch_rethrow. unfold mbind, comp_bind.
  destruct (fetch url w) as [[r|e] w1]; [|reflexivity].
  destruct (verifyStatus r w1) as [[v|e] w2]; reflexivity.
Qed.

(** Every failure of the chain ends in the handler. *)
Lemma chain_fails_retrieve options w e w' :
  chain_fails uri_toString fetch options w e w' →
  retrieve uri_toString fetch stringify options w = handled stringify e w'.
Proof.
  intros H. rewrite retrieve_unfold, getRecords_unfold.
  destruct H as [e w1 Hf|r w1 Hf Hs|r w1 e w2 Hf Hs Hj|r w1 v w2 e w3 Hf Hs Hj Ht];
    rewrite Hf.
  - reflexivity.
  - now rewrite verifyStatus_error.
  - rewrite verifyStatus_ok, Hj by assumption. reflexivity.
  - rewrite verifyStatus_ok, Hj by assumption.
    unfold format_opts in *. rewrite orEmpty_orEmpty. now rewrite Ht.
Qed.
End Orchestration.

(** C8, as stated, fails: when the transport rejects with a value that
    has no conversion to a string, the template literal of the handler
    throws, so [retrieve] rejects with that [TypeError] and nothing is
    logged. *)
Lemma retrieve_rejects_unprintable :
  chain_fails URI.base fetch_offline None sample_world
    (Failure "offline") sample_world ∧
  retrieve URI.base fetch_offline stringify_symbol None sample_world
  = (Thrown TypeError, sample_world) ∧
  console sample_world = [].
Proof.
  split; [now apply transport_fails|]. split; reflexivity.
Qed.

(** C8, amended. Whatever in the chain fails (the transport rejects, the
    status is outside [200, 300) and [verifyStatus] throws an [Error]
    carrying the response's [statusText], the body cannot be read, or
    the transformer throws), if the error converts to a string then
    [retrieve] resolves with [undefined] and has logged one diagnostic
    that carries that string. *)
Theorem retrieve_swallows_failures
    (uri_toString : URI.t → string) (fetch : string → Comp response)
    (stringify : exn → Comp string)
    (options : option Options.t) (w : world) :
  (∀ e w' s w'',
     chain_fails uri_toString fetch options w e w' →
     stringify e w' = (Returned s, w'') →
     retrieve uri_toString fetch stringify options w
     = (Returned None, logged s w'')) ∧
  (∀ r w1, ¬ ok_status r →
           verifyStatus r w1 = (Thrown (Error (statusText r)), w1)).
Proof.
  split.
  - intros e w' s w'' Hc Hs.
    rewrite (chain_fails_retrieve _ _ _ _ _ _ _ Hc). unfold handled.
    now rewrite Hs.
  - intros r w1. apply verifyStatus_error.
Qed.

Lemma retrieve_swallows_failures_witness :
  (chain_fails URI.base fetch_not_found None sample_world
     (Error "Not Found") sample_world ∧
   stringify_plain (Error "Not Found") sample_world
   = (Returned "Error: Not Found", sample_world) ∧
   retrieve URI.base fetch_not_found stringify_plain None sample_world
   = (Returned None, logged "Error: Not Found" sample_world)) ∧
  (chain_fails URI.base fetch_null_body None sample_world
     TypeError sample_world ∧
   stringify_plain TypeError sample_world
   = (Returned "TypeError", sample_world) ∧
   retrieve URI.base fetch_null_body stringify_plain None sample_world
   = (Returned None, logged "TypeError" sample_world)).
Proof.
  assert (chain_fails URI.base fetch_not_found None sample_world
            (Error "Not Found") sample_world) as H1.
  { apply (status_fails URI.base fetch_not_found None sample_world
             {| status := 404; statusText := "Not Found"; json := mret JNull |}
             sample_world); [reflexivity|].
    unfold ok_status. simpl. lia. }
  assert (chain_fails URI.base fetch_null_body None sample_world
            TypeError sample_world) as H2.
  { apply (transform_fails URI.base fetch_null_body None sample_world
             {| status := 200; statusText := "OK"; json := mret JNull |}
             sample_world JNull sample_world TypeError sample_world);
      [reflexivity| |reflexivity|reflexivity].
    unfold ok_status. simpl. lia. }
  split; (split; [assumption|]); (split; [reflexivity|]).
  - exact (proj1 (retrieve_swallows_failures URI.base fetch_not_found
                    stringify_plain None sample_world)
             _ _ _ _ H1 eq_refl).
  - exact (proj1 (retrieve_swallows_failures URI.base fetch_null_body
                    stringify_plain None sample_world)
             _ _ _ _ H2 eq_refl).
Defined.

(** ** The requested colors *)

Lemma lookup_map {A B} (f : A → B) (l : list A) (i : nat) :
  map f l !! i = f <$> l !! i.
Proof.
  revert i. induction l as [|x l IH]; intros [|i]; simpl; auto.
Qed.

(** The code's test for a closed record of primary color is the one of
    the specification: closed, and red, blue or yellow. *)
Lemma closedPrime_is_closed_primary r : closedPrime r = is_closed_primary r.
Proof.
  unfold closedPrime, is_closed_primary, isPrimeColor, indexOf. f_equal.
  rewrite (String.eqb_sym (Rec.color r) "red"),
    (String.eqb_sym (Rec.color r) "blue"),
    (String.eqb_sym (Rec.color r) "yellow").
  cbn [indexOf_from].
  generalize (String.eqb "red" (Rec.color r)),
    (String.eqb "blue" (Rec.color r)), (String.eqb "yellow" (Rec.color r)).
  now intros [|] [|] [|].
Qed.

Lemma filter_closedPrime_spec rs :
  List.filter closedPrime rs = List.filter is_closed_primary rs.
Proof.
  induction rs as [|r rs IH]; [reflexivity|]. simpl.
  now rewrite closedPrime_is_closed_primary, IH.
Qed.

Lemma is_closed_primary_true r :
  Rec.disposition r = "closed" →
  Rec.color r = "red" ∨ Rec.color r = "blue" ∨ Rec.color r = "yellow" →
  is_closed_primary r = true.
Proof.
  intros Hd Hc. unfold is_closed_primary. rewrite Hd.
  destruct Hc as [-> | [-> | ->]]; reflexivity.
Qed.

(** A record at index [i] that passes the test counts for one. *)
Lemma filter_length_middle {A} (f : A → bool) (l : list A) (i : nat) x :
  l !! i = Some x → f x = true →
  length (List.filter f l)
  = (length (List.filter f (take i l)) + 1
     + length (List.filter f (drop (S i) l)))%nat.
Proof.
  intros Hl Hx. rewrite <- (take_drop_middle l i x Hl) at 1.
  rewrite List.filter_app, length_app. simpl. rewrite Hx. simpl. lia.
Qed.

Lemma retrieve_returns uri_toString fetch stringify options w r w1 a w2 rs :
  fetch (request_url uri_toString options) w = (Returned r, w1) →
  ok_status r →
  json r w1 = (Returned (JArray a), w2) →
  holds (store w2) a rs →
  retrieve uri_toString fetch stringify options w
  = (Returned (Some
       {| Page.ids := map Rec.id (take 10 rs);
          Page.open := opens (store w2) (take 10 a);
          Page.closedPrimaryCount :=
            Z.of_nat (length (List.filter closedPrime (take 10 rs)));
          Page.previousPage :=
            let curPage :=
              page_or_1 (Options.page (default Options.empty options)) in
            if curPage =? 1 then None
            else Some (num_sub (Num curPage) (Num 1));
          Page.nextPage :=
            let curPage :=
              page_or_1 (Options.page (default Options.empty options)) in
            if Z.of_nat (length a) <=? 10 then None
            else Some (num_add (Num curPage) (Num 1)) |}),
     {| store := touch_all (take 10 a) (store w2); console := console w2 |}).
Proof.
  intros Hf Hs Hj H. rewrite retrieve_unfold, getRecords_unfold, Hf.
  rewrite verifyStatus_ok, Hj by assumption. unfold format_opts.
  cbn [orEmpty]. rewrite (formatFinal_run _ _ _ _ _ H).
  cbn [default]. unfold defaults.limit, id.
  rewrite !slice_0_nonneg by lia. reflexivity.
Qed.

(** C10. The requested colors reach the URL and nothing else: with the
    same answer of the transport, [retrieve] returns the same whatever
    colors are asked for. In the page, [closedPrimaryCount] is the
    number of records among the first 10 of the answer that are closed
    and red, blue or yellow, whatever the requested colors; and a
    record of the answer whose color is not among the requested ones
    still has its id in [ids], is in [open] when it is open, and counts
    for one in [closedPrimaryCount] when it is closed and red, blue or
    yellow. *)
Theorem retrieve_ignores_colors
    (uri_toString : URI.t → string) (fetch : string → Comp response)
    (stringify : exn → Comp string)
    (o : Options.t) (w : world) :
  Query.color (buildUrlOpts o) = default defaults.colors (Options.colors o) ∧
  (∀ colors',
     let o' := {| Options.page := Options.page o;
                  Options.colors := colors';
                  Options.limit := Options.limit o |} in
     fetch (request_url uri_toString (Some o')) w
     = fetch (request_url uri_toString (Some o)) w →
     retrieve uri_toString fetch stringify (Some o') w
     = retrieve uri_toString fetch stringify (Some o) w) ∧
  (∀ r w1 a w2 rs,
     fetch (request_url uri_toString (Some o)) w = (Returned r, w1) →
     ok_status r →
     json r w1 = (Returned (JArray a), w2) →
     holds (store w2) a rs →
     ∃ page w3,
       retrieve uri_toString fetch stringify (Some o) w
       = (Returned (Some page), w3) ∧
       Page.ids page = map Rec.id (take 10 rs) ∧
       Page.open page = opens (store w2) (take 10 a) ∧
       Page.closedPrimaryCount page
       = Z.of_nat (length (List.filter is_closed_primary (take 10 rs))) ∧
       ∀ (i : nat) l rec,
         (i < 10)%nat → a !! i = Some l → rs !! i = Some rec →
         Rec.color rec ∉ default defaults.colors (Options.colors o) →
         Page.ids page !! i = Some (Rec.id rec) ∧
         (Rec.disposition rec = "open" → l ∈ Page.open page) ∧
         (Rec.disposition rec = "closed" →
          Rec.color rec = "red" ∨ Rec.color rec = "blue" ∨
          Rec.color rec = "yellow" →
          Page.closedPrimaryCount page
          = Z.of_nat (length (List.filter is_closed_primary (take i rs))) + 1
            + Z.of_nat (length (List.filter is_closed_primary
                                  (drop (S i) (take 10 rs)))))).
Proof.
  split; [reflexivity|]. split.
  - intros colors' o' Hf.
    rewrite !retrieve_unfold, !getRecords_unfold, Hf. reflexivity.
  - intros r w1 a w2 rs Hf Hs Hj H. eexists _, _.
    split; [exact (retrieve_returns _ _ _ _ _ _ _ _ _ _ Hf Hs Hj H)|].
    cbn [Page.ids Page.open Page.closedPrimaryCount].
    rewrite filter_closedPrime_spec.
    split; [reflexivity|]. split; [reflexivity|]. split; [reflexivity|].
    intros i l rec Hi Hl Hrec _.
    assert (l ∈ take 10 a) as Hla by (apply elem_of_take; eauto).
    assert (take 10 rs !! i = Some rec) as Hri
      by (now rewrite lookup_take_lt).
    split; [|split].
    + now rewrite lookup_map, Hri.
    + intros Ho. unfold opens. apply list_elem_of_In, List.filter_In.
      split; [now apply list_elem_of_In|].
      rewrite (Forall2_lookup_lr _ _ _ _ _ _ H Hl Hrec).
      now apply isOpen_spec.
    + intros Hd Hc.
      rewrite (filter_length_middle is_closed_primary _ i rec Hri
                 (is_closed_primary_true _ Hd Hc)).
      rewrite take_take, Nat.min_l by lia. lia.
Qed.

Lemma retrieve_ignores_colors_witness :
  let o := {| Options.page := None;
              Options.colors := Some ["green"];
              Options.limit := None |} in
  ("red" ∉ default defaults.colors (Options.colors o)) ∧
  ("blue" ∉ default defaults.colors (Options.colors o)) ∧
  ∃ page w3,
    retrieve URI.base fetch_sample stringify_plain (Some o) sample_world
    = (Returned (Some page), w3) ∧
    Page.ids page !! 0%nat = Some 1 ∧
    1%positive ∈ Page.open page ∧
    Page.closedPrimaryCount page = 1.
Proof.
  intros o.
  assert ("red" ∉ default defaults.colors (Options.colors o)) as Hred.
  { simpl. rewrite list_elem_of_In. simpl. intuition discriminate. }
  assert ("blue" ∉ default defaults.colors (Options.colors o)) as Hblue.
  { simpl. rewrite list_elem_of_In. simpl. intuition discriminate. }
  split; [exact Hred|]. split; [exact Hblue|].
  destruct (proj2 (proj2 (retrieve_ignores_colors URI.base fetch_sample
                            stringify_plain o sample_world))
              {| status := 200; statusText := "OK";
                 json := mret (JArray [1; 2; 3]%positive) |}
              sample_world [1; 2; 3]%positive sample_world sample_records)
    as (page & w3 & Hrun & _ & _ & _ & Hrec).
  - reflexivity.
  - unfold ok_status. simpl. lia.
  - reflexivity.
  - repeat constructor.
  - exists page, w3. split; [exact Hrun|].
    destruct (Hrec 0%nat 1%positive (Rec.mk 1 "red" "open" None))
      as (Hid & Hopen & _); [lia|reflexivity|reflexivity|exact Hred|].
    destruct (Hrec 2%nat 3%positive (Rec.mk 3 "blue" "closed" None))
      as (_ & _ & Hcount); [lia|reflexivity|reflexivity|exact Hblue|].
    split; [exact Hid|]. split; [now apply Hopen|].
    rewrite Hcount; [reflexivity|reflexivity|]. right. now left.
Defined.

(** ** The examples of the specification *)

(** Three records on page 1 with limit 10. *)
Example formatFinal_three_records :
  fst (formatFinal {| FormatOpts.curPage := 1;
                      FormatOpts.limit := Some 10;
                      FormatOpts.records := JArray [1; 2; 3]%positive |}
         sample_world)
  = Returned {| Page.ids := [1; 2; 3];
                Page.open := [1%positive];
                Page.closedPrimaryCount := 1;
                Page.previousPage := None;
                Page.nextPage := None |}.
Proof. reflexivity. Qed.

(** The open record carries [isPrimary] afterwards; the closed ones are
    left as they were. *)
Example formatFinal_three_records_store :
  let w' := snd (formatFinal {| FormatOpts.curPage := 1;
                                FormatOpts.limit := Some 10;
                                FormatOpts.records := JArray [1; 2; 3]%positive |}
                   sample_world) in
  store w' !! 1%positive = Some (Rec.mk 1 "red" "open" (Some true)) ∧
  store w' !! 3%positive = Some (Rec.mk 3 "blue" "closed" None).
Proof. split; reflexivity. Qed.

(** Eleven records with limit 10 on page 1: there is a next page, and
    the eleventh record is left out. *)
Example formatFinal_eleven_records :
  fst (formatFinal {| FormatOpts.curPage := 1;
                      FormatOpts.limit := Some 10;
                      FormatOpts.records :=
                        JArray [1; 2; 3; 1; 2; 3; 1; 2; 3; 1; 3]%positive |}
         sample_world)
  = Returned {| Page.ids := [1; 2; 3; 1; 2; 3; 1; 2; 3; 1];
                Page.open := [1; 1; 1; 1]%positive;
                Page.closedPrimaryCount := 3;
                Page.previousPage := None;
                Page.nextPage := Some (Num 2) |}.
Proof. reflexivity. Qed.

(** ["Red"] is not a primary color: the test is case-sensitive. *)
Example isPrimeColor_case : isPrimeColor "Red" = false ∧ isPrimeColor "red" = true.
Proof. split; reflexivity. Qed.

(** * Further properties of the code *)

(** ** More on stores and slices *)

Lemma bound_holds (s : gmap loc Rec.t) (a : list loc) :
  bound s a → ∃ rs, holds s a rs.
Proof.
  unfold bound, holds. induction 1 as [|l a [r Hl] _ [rs IH]].
  - exists []. constructor.
  - exists (r :: rs). now constructor.
Qed.

Lemma holds_functional (s : gmap loc Rec.t) a rs1 rs2 :
  holds s a rs1 → holds s a rs2 → rs1 = rs2.
Proof.
  unfold holds. intros H. revert rs2.
  induction H as [|l r a rs Hl _ IH]; intros rs2 H2; inversion H2; subst.
  - reflexivity.
  - f_equal; [congruence|now apply IH].
Qed.

Lemma touch_all_lookup b (s : gmap loc Rec.t) (l : loc) :
  touch_all b s !! l = if decide (l ∈ b) then touch <$> s !! l else s !! l.
Proof.
  case_decide; [now apply touch_all_lookup_in|now apply touch_all_lookup_notin].
Qed.

Lemma touch_all_idemp b (s : gmap loc Rec.t) :
  touch_all b (touch_all b s) = touch_all b s.
Proof.
  apply map_eq. intros l. rewrite !touch_all_lookup.
  case_decide; [|reflexivity].
  destruct (s !! l) as [r|]; simpl; [|reflexivity]. now rewrite touch_touch.
Qed.

Lemma opens_touch_all b (s : gmap loc Rec.t) b' :
  opens (touch_all b s) b' = opens s b'.
Proof.
  unfold opens. induction b' as [|l b' IH]; [reflexivity|]. simpl. rewrite IH.
  rewrite touch_all_lookup. case_decide; [|reflexivity].
  destruct (s !! l) as [r|]; simpl; [|reflexivity]. now rewrite isOpen_touch.
Qed.

Lemma bound_touch_all b (s : gmap loc Rec.t) a :
  bound s a ↔ bound (touch_all b s) a.
Proof.
  unfold bound. apply Forall_proper; [|reflexivity]. intros l.
  rewrite touch_all_lookup. case_decide; [|reflexivity].
  now rewrite fmap_is_Some.
Qed.

Lemma rec_id_touch r : Rec.id (touch r) = Rec.id r.
Proof. unfold touch. now destruct (isOpen r). Qed.

Lemma map_rec_id_touch rs : map Rec.id (map touch rs) = map Rec.id rs.
Proof.
  induction rs as [|r rs IH]; [reflexivity|]. simpl.
  now rewrite rec_id_touch, IH.
Qed.

Lemma slice_nil {A} (start stop : Z) : slice (@nil A) start stop = [].
Proof. unfold slice. now rewrite drop_nil, take_nil. Qed.

Lemma opens_length (s : gmap loc Rec.t) b rs :
  holds s b rs → length (opens s b) = length (List.filter isOpen rs).
Proof.
  intros H. pose proof (holds_opens s b b rs H (reflexivity b)) as Ho.
  apply holds_length in Ho. now rewrite length_map in Ho.
Qed.

Lemma open_not_closedPrime r : isOpen r = true → closedPrime r = false.
Proof.
  unfold isOpen, closedPrime. intros H. apply String.eqb_eq in H.
  now rewrite H.
Qed.

Lemma open_closedPrime_length rs :
  (length (List.filter isOpen rs) + length (List.filter closedPrime rs)
   ≤ length rs)%nat.
Proof.
  induction rs as [|r rs IH]; simpl; [lia|].
  destruct (isOpen r) eqn:E.
  - rewrite (open_not_closedPrime _ E). simpl. lia.
  - destruct (closedPrime r); simpl; lia.
Qed.

Lemma open_ids_sublist rs :
  map Rec.id (map annotate (List.filter isOpen rs)) `sublist_of` map Rec.id rs.
Proof.
  induction rs as [|r rs IH]; simpl; [constructor|].
  destruct (isOpen r); simpl; now constructor.
Qed.

Lemma formatFinal_orEmpty o w :
  formatFinal o w
  = formatFinal {| FormatOpts.curPage := FormatOpts.curPage o;
                   FormatOpts.limit := FormatOpts.limit o;
                   FormatOpts.records := orEmpty (FormatOpts.records o) |} w.
Proof.
  unfold formatFinal. cbn [FormatOpts.curPage FormatOpts.limit FormatOpts.records].
  now rewrite orEmpty_orEmpty.
Qed.

(** One run of [formatFinal] on an array whose final slice holds
    records; the slots past the slice may hold anything. *)
Lemma formatFinal_run_slice w curPage limit a rs' :
  let L := default defaults.limit limit in
  holds (store w) (slice a 0 L) rs' →
  formatFinal {| FormatOpts.curPage := curPage;
                 FormatOpts.limit := limit;
                 FormatOpts.records := JArray a |} w
  = (Returned
       {| Page.ids := map Rec.id rs';
          Page.open := opens (store w) (slice a 0 L);
          Page.closedPrimaryCount :=
            Z.of_nat (length (List.filter closedPrime rs'));
          Page.previousPage := if curPage =? 1 then None else Some (num_sub (Num curPage) (Num 1));
          Page.nextPage :=
            if Z.of_nat (length a) <=? L then None else Some (num_add (Num curPage) (Num 1)) |},
     {| store := touch_all (slice a 0 L) (store w); console := console w |}).
Proof.
  intros L Hs. unfold formatFinal. cbn [FormatOpts.curPage FormatOpts.limit
    FormatOpts.records orEmpty as_array]. fold L.
  rewrite (bind_returned _ _ w a w) by reflexivity.
  rewrite (bind_returned _ _ _ _ _ (getIds_run _ _ _ Hs)).
  rewrite (bind_returned _ _ _ _ _
             (filterOpenRecs_run _ _ (holds_bound _ _ _ Hs))).
  set (w' := {| store := touch_all (slice a 0 L) (store w);
                console := console w |}).
  assert (holds (store w') (slice a 0 L) (map touch rs')) as Hs'
    by (now apply holds_touch_all).
  destruct (getClosedPrime_run w' _ _ Hs') as (closed & Hrun & Hc).
  rewrite (bind_returned _ _ _ _ _ Hrun).
  apply holds_length in Hc.
  rewrite filter_closedPrime_touch, length_map in Hc. now rewrite Hc.
Qed.

(** ** What the transformer writes *)

(** X1. [formatFinal] writes nothing but [isPrimary], and only into the
    open records of the final slice: an object that is not in the slice
    (the overflow record among them) or that is not open is left as it
    was, every object keeps its id, color and disposition, and the
    console is not written. *)
Theorem formatFinal_frame w curPage limit a rs :
  holds (store w) a rs →
  let L := default defaults.limit limit in
  ∃ page w',
    formatFinal {| FormatOpts.curPage := curPage;
                   FormatOpts.limit := limit;
                   FormatOpts.records := JArray a |} w = (Returned page, w') ∧
    console w' = console w ∧
    (∀ l, l ∉ slice a 0 L → store w' !! l = store w !! l) ∧
    (∀ l, store w !! l = None → store w' !! l = None) ∧
    (∀ l r, store w !! l = Some r →
       ∃ r', store w' !! l = Some r' ∧
             Rec.id r' = Rec.id r ∧ Rec.color r' = Rec.color r ∧
             Rec.disposition r' = Rec.disposition r ∧
             (Rec.disposition r ≠ "open" → r' = r)).
Proof.
  intros H L. eexists _, _. split; [exact (formatFinal_run _ _ _ _ _ H)|].
  cbn [store console]. fold L. split; [reflexivity|].
  split; [|split].
  - intros l Hl. now apply touch_all_lookup_notin.
  - intros l Hl. rewrite touch_all_lookup, Hl. now case_decide.
  - intros l r Hl. rewrite touch_all_lookup, Hl. case_decide; simpl.
    + exists (touch r). unfold touch. destruct (isOpen r) eqn:E.
      * repeat split; try reflexivity. intros Hne. apply isOpen_spec in E.
        contradiction.
      * repeat split; reflexivity.
    + exists r. repeat split; reflexivity.
Qed.

Lemma formatFinal_frame_witness :
  holds (store sample_world) [1; 2; 3]%positive sample_records ∧
  ∃ page w',
    formatFinal {| FormatOpts.curPage := 1;
                   FormatOpts.limit := Some 2;
                   FormatOpts.records := JArray [1; 2; 3]%positive |}
      sample_world = (Returned page, w') ∧
    console w' = console sample_world ∧
    (∀ l, l ∉ slice [1; 2; 3]%positive 0 2 →
          store w' !! l = store sample_world !! l) ∧
    (∀ l, store sample_world !! l = None → store w' !! l = None) ∧
    (∀ l r, store sample_world !! l = Some r →
       ∃ r', store w' !! l = Some r' ∧
             Rec.id r' = Rec.id r ∧ Rec.color r' = Rec.color r ∧
             Rec.disposition r' = Rec.disposition r ∧
             (Rec.disposition r ≠ "open" → r' = r)).
Proof.
  split; [repeat constructor|].
  apply (formatFinal_frame sample_world 1 (Some 2) [1; 2; 3]%positive
           sample_records).
  repeat constructor.
Defined.

(** X2. Running [formatFinal] again on the same array, in the store the
    first run has left, returns the same page and writes nothing new. *)
Theorem formatFinal_idempotent w curPage limit a rs :
  holds (store w) a rs →
  ∃ page w',
    formatFinal {| FormatOpts.curPage := curPage;
                   FormatOpts.limit := limit;
                   FormatOpts.records := JArray a |} w = (Returned page, w') ∧
    formatFinal {| FormatOpts.curPage := curPage;
                   FormatOpts.limit := limit;
                   FormatOpts.records := JArray a |} w' = (Returned page, w').
Proof.
  intros H. set (L := default defaults.limit limit).
  pose proof (holds_slice _ _ _ L H) as Hs.
  eexists _, _. split; [exact (formatFinal_run_slice _ _ _ _ _ Hs)|].
  fold L.
  set (w' := {| store := touch_all (slice a 0 L) (store w);
                console := console w |}).
  assert (holds (store w') (slice a 0 L) (map touch (slice rs 0 L))) as Hs'
    by (now apply holds_touch_all).
  rewrite (formatFinal_run_slice w' curPage limit a _ Hs'). fold L.
  cbn [store console w'].
  rewrite map_rec_id_touch, opens_touch_all, touch_all_idemp.
  now rewrite filter_closedPrime_touch, length_map.
Qed.

Lemma formatFinal_idempotent_witness :
  holds (store sample_world) [1; 2; 3]%positive sample_records ∧
  ∃ page w',
    formatFinal {| FormatOpts.curPage := 1;
                   FormatOpts.limit := Some 2;
                   FormatOpts.records := JArray [1; 2; 3]%positive |}
      sample_world = (Returned page, w') ∧
    formatFinal {| FormatOpts.curPage := 1;
                   FormatOpts.limit := Some 2;
                   FormatOpts.records := JArray [1; 2; 3]%positive |}
      w' = (Returned page, w').
Proof.
  split; [repeat constructor|].
  apply (formatFinal_idempotent sample_world 1 (Some 2) [1; 2; 3]%positive
           sample_records).
  repeat constructor.
Defined.

(** ** When the transformer returns and when it throws *)

(** X3. [formatFinal] returns a page exactly when [records] is absent or
    an array and no slot of the final slice is [null]; a [null] in a
    slot past the slice does no harm. *)
Theorem formatFinal_returns_iff o w :
  (∃ page w', formatFinal o w = (Returned page, w')) ↔
  ∃ a, orEmpty (FormatOpts.records o) = JArray a ∧
       bound (store w)
         (slice a 0 (default defaults.limit (FormatOpts.limit o))).
Proof.
  rewrite formatFinal_orEmpty. destruct o as [curPage limit v].
  cbn [FormatOpts.curPage FormatOpts.limit FormatOpts.records].
  set (L := default defaults.limit limit). split.
  - intros (page & w' & Hrun).
    destruct (orEmpty v) as [| |a|] eqn:Ev;
      [now destruct v|discriminate| |discriminate].
    exists a. split; [reflexivity|].
    destruct (decide (Forall (λ l, is_Some (store w !! l)) (slice a 0 L)))
      as [Hb|Hb]; [exact Hb|].
    rewrite (formatFinal_null_slot w curPage limit a Hb) in Hrun.
    discriminate.
  - intros (a & -> & Hb). destruct (bound_holds _ _ Hb) as [rs' Hs].
    eexists _, _. exact (formatFinal_run_slice _ _ _ _ _ Hs).
Qed.

(** X4. When [formatFinal] throws, it throws a [TypeError] and has
    written nothing: no record carries a new [isPrimary]. *)
Theorem formatFinal_throws_unchanged o w e w' :
  formatFinal o w = (Thrown e, w') → e = TypeError ∧ w' = w.
Proof.
  rewrite formatFinal_orEmpty. destruct o as [curPage limit v].
  cbn [FormatOpts.curPage FormatOpts.limit FormatOpts.records].
  destruct (orEmpty v) as [| |a|] eqn:Ev.
  - now destruct v.
  - intros [= <- <-]. now split.
  - destruct (decide (Forall (λ l, is_Some (store w !! l))
                        (slice a 0 (default defaults.limit limit))))
      as [Hb|Hb].
    + destruct (bound_holds _ _ Hb) as [rs' Hs].
      rewrite (formatFinal_run_slice _ _ _ _ _ Hs). discriminate.
    + rewrite (formatFinal_null_slot w curPage limit a Hb).
      intros [= <- <-]. now split.
  - intros [= <- <-]. now split.
Qed.

Lemma formatFinal_throws_unchanged_witness :
  formatFinal {| FormatOpts.curPage := 1;
                 FormatOpts.limit := None;
                 FormatOpts.records := JArray sample_null_slot |}
    sample_world = (Thrown TypeError, sample_world) ∧
  TypeError = TypeError ∧ sample_world = sample_world.
Proof.
  split; [reflexivity|].
  apply (formatFinal_throws_unchanged
           {| FormatOpts.curPage := 1;
              FormatOpts.limit := None;
              FormatOpts.records := JArray sample_null_slot |}
           sample_world TypeError sample_world).
  reflexivity.
Defined.

Lemma formatFinal_returns_iff_witness :
  ∃ page w',
    formatFinal {| FormatOpts.curPage := 1;
                   FormatOpts.limit := Some 1;
                   FormatOpts.records := JArray sample_null_slot |}
      sample_world = (Returned page, w').
Proof.
  apply (proj2 (formatFinal_returns_iff
                  {| FormatOpts.curPage := 1;
                     FormatOpts.limit := Some 1;
                     FormatOpts.records := JArray sample_null_slot |}
                  sample_world)).
  exists sample_null_slot. split; [reflexivity|].
  constructor; [|constructor]. eexists. reflexivity.
Defined.

(** ** Edge cases of the limit and of the array *)

(** The empty page. *)
Lemma formatFinal_empty_run w curPage limit v :
  v = JUndefined ∨ v = JArray [] →
  formatFinal {| FormatOpts.curPage := curPage;
                 FormatOpts.limit := limit;
                 FormatOpts.records := v |} w
  = (Returned
       {| Page.ids := [];
          Page.open := [];
          Page.closedPrimaryCount := 0;
          Page.previousPage :=
            if curPage =? 1 then None else Some (num_sub (Num curPage) (Num 1));
          Page.nextPage :=
            if 0 <=? default defaults.limit limit then None
            else Some (num_add (Num curPage) (Num 1)) |}, w).
Proof.
  intros Hv. set (L := default defaults.limit limit).
  assert (formatFinal {| FormatOpts.curPage := curPage;
                         FormatOpts.limit := limit;
                         FormatOpts.records := v |} w
          = formatFinal {| FormatOpts.curPage := curPage;
                           FormatOpts.limit := limit;
                           FormatOpts.records := JArray [] |} w) as ->
    by (now destruct Hv as [-> | ->]).
  assert (holds (store w) (slice [] 0 L) []) as Hs
    by (rewrite slice_nil; constructor).
  rewrite (formatFinal_run_slice w curPage limit [] [] Hs). fold L.
  rewrite slice_nil. cbn [touch_all foldl]. destruct w. reflexivity.
Qed.

(** X5. With [records] absent or empty the page has no ids, no open
    record and a count of 0, and nothing is written; [nextPage] is
    [null] exactly when the limit is not negative, and [curPage + 1],
    the sum the program computes, when it is negative. *)
Theorem formatFinal_no_records w curPage limit v :
  v = JUndefined ∨ v = JArray [] →
  let L := default defaults.limit limit in
  ∃ page,
    formatFinal {| FormatOpts.curPage := curPage;
                   FormatOpts.limit := limit;
                   FormatOpts.records := v |} w = (Returned page, w) ∧
    Page.ids page = [] ∧ Page.open page = [] ∧
    Page.closedPrimaryCount page = 0 ∧
    (Page.nextPage page = None ↔ 0 ≤ L) ∧
    (L < 0 → Page.nextPage page = Some (num_add (Num curPage) (Num 1))).
Proof.
  intros Hv L. eexists. split; [exact (formatFinal_empty_run _ _ _ _ Hv)|].
  cbn [Page.ids Page.open Page.closedPrimaryCount Page.nextPage]. fold L.
  destruct (Z.leb_spec 0 L); repeat split;
    try reflexivity; try (intros; lia); try discriminate.
Qed.

Lemma formatFinal_no_records_witness :
  (JUndefined = JUndefined ∨ JUndefined = JArray []) ∧
  ∃ page,
    formatFinal {| FormatOpts.curPage := 3;
                   FormatOpts.limit := Some (-1);
                   FormatOpts.records := JUndefined |} sample_world
    = (Returned page, sample_world) ∧
    Page.ids page = [] ∧ Page.open page = [] ∧
    Page.closedPrimaryCount page = 0 ∧
    (Page.nextPage page = None ↔ 0 ≤ -1) ∧
    (-1 < 0 → Page.nextPage page = Some (num_add (Num 3) (Num 1))).
Proof.
  split; [now left|].
  apply (formatFinal_no_records sample_world 3 (Some (-1)) JUndefined).
  now left.
Defined.

(** X6. With a negative limit the final slice is the array without its
    last [- limit] records: [ids] are the ids of those records, and
    [nextPage] is [curPage + 1], the sum the program computes, whatever
    the array. *)
Theorem formatFinal_negative_limit w curPage limit a rs :
  holds (store w) a rs →
  let L := default defaults.limit limit in
  L < 0 →
  ∃ page w',
    formatFinal {| FormatOpts.curPage := curPage;
                   FormatOpts.limit := limit;
                   FormatOpts.records := JArray a |} w = (Returned page, w') ∧
    Page.ids page = map Rec.id (take (length rs - Z.to_nat (- L)) rs) ∧
    Z.of_nat (length (Page.ids page)) = Z.max (Z.of_nat (length a) + L) 0 ∧
    Page.nextPage page = Some (num_add (Num curPage) (Num 1)).
Proof.
  intros H L HL. eexists _, _. split; [exact (formatFinal_run _ _ _ _ _ H)|].
  cbn [Page.ids Page.nextPage]. fold L. rewrite slice_0_neg by assumption.
  rewrite (holds_length _ _ _ H). split; [reflexivity|]. split.
  - rewrite length_map, length_take. clearbody L. lia.
  - destruct (Z.leb_spec (Z.of_nat (length rs)) L); [lia|reflexivity].
Qed.

Lemma formatFinal_negative_limit_witness :
  holds (store sample_world) [1; 2; 3]%positive sample_records ∧
  default defaults.limit (Some (-1)) < 0 ∧
  ∃ page w',
    formatFinal {| FormatOpts.curPage := 1;
                   FormatOpts.limit := Some (-1);
                   FormatOpts.records := JArray [1; 2; 3]%positive |}
      sample_world = (Returned page, w') ∧
    Page.ids page
    = map Rec.id (take (length sample_records
                        - Z.to_nat (- default defaults.limit (Some (-1))))
                    sample_records) ∧
    Z.of_nat (length (Page.ids page))
    = Z.max (Z.of_nat (length [1; 2; 3]%positive)
             + default defaults.limit (Some (-1))) 0 ∧
    Page.nextPage page = Some (num_add (Num 1) (Num 1)).
Proof.
  split; [repeat constructor|]. split; [simpl; lia|].
  apply (formatFinal_negative_limit sample_world 1 (Some (-1))
           [1; 2; 3]%positive sample_records).
  - repeat constructor.
  - simpl. lia.
Defined.

(** X7. No record is both in [open] and counted in
    [closedPrimaryCount]: the two together are at most as many as the
    ids. The ids of the open records, read in their order, are a
    subsequence of [ids]. *)
Theorem formatFinal_open_closed_disjoint w curPage limit a rs :
  holds (store w) a rs →
  ∃ page w',
    formatFinal {| FormatOpts.curPage := curPage;
                   FormatOpts.limit := limit;
                   FormatOpts.records := JArray a |} w = (Returned page, w') ∧
    Z.of_nat (length (Page.open page)) + Page.closedPrimaryCount page
    ≤ Z.of_nat (length (Page.ids page)) ∧
    ∃ ors, holds (store w') (Page.open page) ors ∧
           map Rec.id ors `sublist_of` Page.ids page.
Proof.
  intros H. set (L := default defaults.limit limit).
  pose proof (holds_slice _ _ _ L H) as Hs.
  eexists _, _. split; [exact (formatFinal_run _ _ _ _ _ H)|].
  cbn [Page.open Page.closedPrimaryCount Page.ids store]. fold L. split.
  - rewrite (opens_length _ _ _ Hs), length_map.
    pose proof (open_closedPrime_length (slice rs 0 L)). lia.
  - exists (map annotate (List.filter isOpen (slice rs 0 L))). split.
    + apply holds_opens; [exact Hs|reflexivity].
    + apply open_ids_sublist.
Qed.

Lemma formatFinal_open_closed_disjoint_witness :
  holds (store sample_world) [1; 2; 3]%positive sample_records ∧
  ∃ page w',
    formatFinal {| FormatOpts.curPage := 1;
                   FormatOpts.limit := None;
                   FormatOpts.records := JArray [1; 2; 3]%positive |}
      sample_world = (Returned page, w') ∧
    Z.of_nat (length (Page.open page)) + Page.closedPrimaryCount page
    ≤ Z.of_nat (length (Page.ids page)) ∧
    ∃ ors, holds (store w') (Page.open page) ors ∧
           map Rec.id ors `sublist_of` Page.ids page.
Proof.
  split; [repeat constructor|].
  apply (formatFinal_open_closed_disjoint sample_world 1 None
           [1; 2; 3]%positive sample_records).
  repeat constructor.
Defined.

(** ** The passes on their own *)

Lemma deref_read_only l w : snd (deref l w) = w.
Proof. unfold deref. now destruct (store w !! l). Qed.

Lemma mapM_read_only {A B} (f : A → Comp B) :
  (∀ x w, snd (f x w) = w) → ∀ l w, snd (mapM f l w) = w.
Proof.
  intros Hf. induction l as [|x l IH]; intros w; [reflexivity|].
  cbn [mapM]. unfold mbind, comp_bind.
  pose proof (Hf x w) as Hx. destruct (f x w) as [[y|e] w1]; simpl in Hx; subst w1;
    [|reflexivity].
  pose proof (IH w) as Hl. destruct (mapM f l w) as [[ys|e] w1]; simpl in Hl;
    subst w1; reflexivity.
Qed.

Lemma filterM_read_only {A} (f : A → Comp bool) :
  (∀ x w, snd (f x w) = w) → ∀ l w, snd (filterM f l w) = w.
Proof.
  intros Hf. induction l as [|x l IH]; intros w; [reflexivity|].
  cbn [filterM]. unfold mbind, comp_bind.
  pose proof (Hf x w) as Hx. destruct (f x w) as [[y|e] w1]; simpl in Hx; subst w1;
    [|reflexivity].
  pose proof (IH w) as Hl. destruct (filterM f l w) as [[ys|e] w1]; simpl in Hl;
    subst w1; reflexivity.
Qed.

Lemma reduceM_app {A B} (f : B → A → Comp B) l1 l2 acc w :
  reduceM f (l1 ++ l2) acc w
  = match reduceM f l1 acc w with
    | (Returned acc', w') => reduceM f l2 acc' w'
    | (Thrown e, w') => (Thrown e, w')
    end.
Proof.
  revert acc w. induction l1 as [|x l1 IH]; intros acc w; [reflexivity|].
  cbn [app reduceM]. unfold mbind, comp_bind.
  destruct (f acc x w) as [[acc'|e] w1]; [apply IH|reflexivity].
Qed.

(** X8. [getIds] and [getClosedPrime] only read: whether they return or
    throw, the store and the console are as before. *)
Theorem getIds_getClosedPrime_read_only records w :
  snd (getIds records w) = w ∧ snd (getClosedPrime records w) = w.
Proof.
  split.
  - apply mapM_read_only. intros l w0. unfold mbind, comp_bind.
    pose proof (deref_read_only l w0) as H.
    destruct (deref l w0) as [[r|e] w1]; simpl in H; now subst.
  - apply filterM_read_only. intros l w0. unfold mbind, comp_bind.
    pose proof (deref_read_only l w0) as H.
    destruct (deref l w0) as [[r|e] w1]; simpl in H; now subst.
Qed.

(** X9. [filterOpenRecs] on its own stops at the first [null] slot with
    a [TypeError], and by then it has written [isPrimary] into the open
    records before that slot. (Inside [formatFinal] this cannot happen:
    [getIds] has read every slot first.) *)
Theorem filterOpenRecs_null_slot w b1 l b2 :
  bound (store w) b1 →
  store w !! l = None →
  filterOpenRecs (b1 ++ l :: b2) w
  = (Thrown TypeError,
     {| store := touch_all b1 (store w); console := console w |}).
Proof.
  intros Hb Hl. unfold filterOpenRecs. rewrite reduceM_app.
  rewrite filterOpenRecs_from by assumption. cbn [reduceM].
  apply bind_thrown, bind_thrown, deref_null. cbn [store].
  rewrite touch_all_lookup, Hl. now case_decide.
Qed.

Lemma filterOpenRecs_null_slot_witness :
  bound (store sample_world) [1%positive] ∧
  store sample_world !! 9%positive = None ∧
  filterOpenRecs ([1%positive] ++ 9%positive :: [2%positive]) sample_world
  = (Thrown TypeError,
     {| store := touch_all [1%positive] (store sample_world);
        console := console sample_world |}) ∧
  touch_all [1%positive] (store sample_world) !! 1%positive
  = Some (Rec.mk 1 "red" "open" (Some true)).
Proof.
  assert (bound (store sample_world) [1%positive]) as Hb.
  { constructor; [|constructor]. eexists. reflexivity. }
  assert (store sample_world !! 9%positive = None) as Hl by reflexivity.
  split; [exact Hb|]. split; [exact Hl|]. split; [|reflexivity].
  exact (filterOpenRecs_null_slot sample_world [1%positive] 9%positive
           [2%positive] Hb Hl).
Defined.

(** ** Consecutive pages *)

(** X10. As long as the numbers stay within [2 ^ 53], the windows of
    consecutive pages are adjacent: the offset of page [p + 1] is the
    offset of page [p] plus the page size, which is the requested limit
    minus one; so the extra record fetched for page [p] is the first
    record of page [p + 1]. Page 1, and an absent page, start at offset
    0 whatever the limit. *)
Theorem buildUrlOpts_next_page p colors limit :
  let L := default defaults.limit limit in
  let q page := buildUrlOpts {| Options.page := page;
                                Options.colors := colors;
                                Options.limit := limit |} in
  (Z.abs p < 2 ^ 53 → Z.abs L < 2 ^ 53 →
   Z.abs (p * L) ≤ 2 ^ 53 → Z.abs ((p - 1) * L) ≤ 2 ^ 53 →
   ∃ o1 o2 l,
     Query.offset (q (Some p)) = Num o1 ∧
     Query.offset (q (Some (p + 1))) = Num o2 ∧
     Query.limit (q (Some p)) = Num l ∧
     Query.limit (q (Some (p + 1))) = Num l ∧
     o2 = o1 + (l - 1)) ∧
  Query.offset (q (Some 1)) = Num 0 ∧
  Query.offset (q None) = Num 0.
Proof.
  intros L q. split; [|split].
  - intros Hp HL Hm1 Hm0.
    exists ((p - 1) * L), (p * L), (L + 1).
    unfold q, buildUrlOpts, calcOffset.
    cbn [Query.offset Query.limit Options.page Options.limit Options.colors].
    fold L. cbn [default]. unfold id.
    rewrite num_add_1_exact by assumption.
    rewrite (num_sub_1_exact p) by assumption.
    assert (num_sub (Num (p + 1)) (Num 1) = Num p) as ->.
    { unfold num_sub. simpl.
      transitivity (round64 p); [f_equal; lia|apply round64_exact; lia]. }
    simpl. rewrite !round64_exact by assumption.
    repeat split; lia.
  - unfold q, buildUrlOpts, calcOffset.
    cbn [Query.offset Options.page Options.limit default]. reflexivity.
  - unfold q, buildUrlOpts, calcOffset.
    cbn [Query.offset Options.page Options.limit default]. reflexivity.
Qed.

Lemma buildUrlOpts_next_page_witness :
  Z.abs 3 < 2 ^ 53 ∧ Z.abs 10 < 2 ^ 53 ∧
  Z.abs (3 * 10) ≤ 2 ^ 53 ∧ Z.abs ((3 - 1) * 10) ≤ 2 ^ 53 ∧
  ∃ o1 o2 l,
    Query.offset (buildUrlOpts {| Options.page := Some 3;
                                  Options.colors := None;
                                  Options.limit := None |}) = Num o1 ∧
    Query.offset (buildUrlOpts {| Options.page := Some (3 + 1);
                                  Options.colors := None;
                                  Options.limit := None |}) = Num o2 ∧
    Query.limit (buildUrlOpts {| Options.page := Some 3;
                                 Options.colors := None;
                                 Options.limit := None |}) = Num l ∧
    Query.limit (buildUrlOpts {| Options.page := Some (3 + 1);
                                 Options.colors := None;
                                 Options.limit := None |}) = Num l ∧
    o2 = o1 + (l - 1).
Proof.
  assert (Z.abs 3 < 2 ^ 53) as H1 by (simpl; lia).
  assert (Z.abs 10 < 2 ^ 53) as H2 by (simpl; lia).
  assert (Z.abs (3 * 10) ≤ 2 ^ 53) as H3 by (simpl; lia).
  assert (Z.abs ((3 - 1) * 10) ≤ 2 ^ 53) as H4 by (simpl; lia).
  split; [exact H1|]. split; [exact H2|]. split; [exact H3|].
  split; [exact H4|].
  exact (proj1 (buildUrlOpts_next_page 3 None None) H1 H2 H3 H4).
Defined.

(** Past [2 ^ 53] the offsets are rounded and the windows drift apart:
    with limit 3, the offsets of pages [2 ^ 52] and [2 ^ 52 + 1] are 4
    apart. *)
Example calcOffset_rounds :
  calcOffset (Some (2 ^ 52)) (Some 3) = Num 13510798882111484 ∧
  calcOffset (Some (2 ^ 52 + 1)) (Some 3) = Num 13510798882111488 ∧
  calcOffset (Some 134217730) (Some 134217729) = Num 18014398777917440.
Proof. repeat split; vm_compute; reflexivity. Qed.

(** ** The orchestrator, case by case *)

Lemma retrieve_success uri_toString fetch stringify options w r w1 v w2 page w3 :
  fetch (request_url uri_toString options) w = (Returned r, w1) →
  ok_status r →
  json r w1 = (Returned v, w2) →
  formatFinal (format_opts options v) w2 = (Returned page, w3) →
  retrieve uri_toString fetch stringify options w
  = (Returned (Some page), w3).
Proof.
  intros Hf Hs Hj Ht. rewrite retrieve_unfold, getRecords_unfold, Hf.
  rewrite verifyStatus_ok, Hj by assumption.
  unfold format_opts in *. rewrite orEmpty_orEmpty. now rewrite Ht.
Qed.

(** Either the chain fails and the handler runs, or every step of it
    succeeds. *)
Lemma retrieve_cases uri_toString fetch stringify options w :
  (∃ e w', chain_fails uri_toString fetch options w e w' ∧
           retrieve uri_toString fetch stringify options w
           = handled stringify e w') ∨
  (∃ r w1 v w2 page w3,
     fetch (request_url uri_toString options) w = (Returned r, w1) ∧
     ok_status r ∧
     json r w1 = (Returned v, w2) ∧
     formatFinal (format_opts options v) w2 = (Returned page, w3) ∧
     retrieve uri_toString fetch stringify options w
     = (Returned (Some page), w3)).
Proof.
  assert (∀ e w', chain_fails uri_toString fetch options w e w' →
            ∃ e w', chain_fails uri_toString fetch options w e w' ∧
                    retrieve uri_toString fetch stringify options w
                    = handled stringify e w') as Hfail.
  { intros e w' H. exists e, w'. split; [exact H|].
    now apply chain_fails_retrieve. }
  destruct (fetch (request_url uri_toString options) w) as [[r|e] w1] eqn:Hf.
  - destruct (decide (200 ≤ status r < 300)) as [Hs|Hs].
    + destruct (json r w1) as [[v|e] w2] eqn:Hj.
      * destruct (formatFinal (format_opts options v) w2) as [[page|e] w3] eqn:Ht.
        -- right. exists r, w1, v, w2, page, w3.
           repeat split; try assumption; try apply Hs.
           now apply (retrieve_success _ _ _ _ _ r w1 v w2).
        -- left. apply (Hfail e w3).
           now apply (transform_fails _ _ _ _ r w1 v w2).
      * left. apply (Hfail e w2). now apply (body_fails _ _ _ _ r w1).
    + left. apply (Hfail (Error (statusText r)) w1). now apply status_fails.
  - left. apply (Hfail e w1). now apply transport_fails.
Qed.

(** X11. [retrieve] resolves with [undefined] exactly when the chain has
    failed with an error that converts to a string; it rejects exactly
    when the chain has failed with an error whose conversion to a
    string throws, and then with what the conversion throws; and it
    resolves with a page exactly when the transport answered with a
    status in [200, 300), the body was read and the transformer
    returned that page. *)
Theorem retrieve_undefined_iff_failure
    (uri_toString : URI.t → string) (fetch : string → Comp response)
    (stringify : exn → Comp string)
    (options : option Options.t) (w : world) :
  (fst (retrieve uri_toString fetch stringify options w) = Returned None ↔
   ∃ e w' s w'', chain_fails uri_toString fetch options w e w' ∧
                 stringify e w' = (Returned s, w'')) ∧
  (∀ e', fst (retrieve uri_toString fetch stringify options w) = Thrown e' ↔
         ∃ e w' w'', chain_fails uri_toString fetch options w e w' ∧
                     stringify e w' = (Thrown e', w'')) ∧
  (∀ page,
     fst (retrieve uri_toString fetch stringify options w)
     = Returned (Some page) ↔
     ∃ r w1 v w2 w3,
       fetch (request_url uri_toString options) w = (Returned r, w1) ∧
       ok_status r ∧
       json r w1 = (Returned v, w2) ∧
       formatFinal (format_opts options v) w2 = (Returned page, w3)).
Proof.
  split; [|split; [intros e'|intros page]]; split.
  - intros Hnone.
    destruct (retrieve_cases uri_toString fetch stringify options w)
      as [(e & w' & Hc & Hr)|(r & w1 & v & w2 & page & w3 & _ & _ & _ & _ & Hr)];
      rewrite Hr in Hnone; [|discriminate].
    unfold handled in Hnone.
    destruct (stringify e w') as [[s|e'] w''] eqn:Hs; [|discriminate].
    now exists e, w', s, w''.
  - intros (e & w' & s & w'' & Hc & Hs).
    rewrite (chain_fails_retrieve _ _ _ _ _ _ _ Hc). unfold handled.
    now rewrite Hs.
  - intros Hthrown.
    destruct (retrieve_cases uri_toString fetch stringify options w)
      as [(e & w' & Hc & Hr)|(r & w1 & v & w2 & page & w3 & _ & _ & _ & _ & Hr)];
      rewrite Hr in Hthrown; [|discriminate].
    unfold handled in Hthrown.
    destruct (stringify e w') as [[s|e''] w''] eqn:Hs; [discriminate|].
    injection Hthrown as ->. now exists e, w', w''.
  - intros (e & w' & w'' & Hc & Hs).
    rewrite (chain_fails_retrieve _ _ _ _ _ _ _ Hc). unfold handled.
    now rewrite Hs.
  - intros Hsome.
    destruct (retrieve_cases uri_toString fetch stringify options w)
      as [(e & w' & _ & Hr)|(r & w1 & v & w2 & page' & w3 & Hf & Hs & Hj & Ht & Hr)];
      rewrite Hr in Hsome.
    + unfold handled in Hsome.
      destruct (stringify e w') as [[s|e''] w'']; discriminate.
    + injection Hsome as ->. now exists r, w1, v, w2, w3.
  - intros (r & w1 & v & w2 & w3 & Hf & Hs & Hj & Ht).
    now rewrite (retrieve_success _ _ _ _ _ _ _ _ _ _ _ Hf Hs Hj Ht).
Qed.

Lemma retrieve_undefined_iff_failure_witness :
  fst (retrieve URI.base fetch_offline stringify_plain None sample_world)
  = Returned None ∧
  fst (retrieve URI.base fetch_offline stringify_symbol None sample_world)
  = Thrown TypeError ∧
  ∃ page,
    fst (retrieve URI.base fetch_no_body stringify_plain None sample_world)
    = Returned (Some page).
Proof.
  split; [|split].
  - apply (proj1 (retrieve_undefined_iff_failure URI.base fetch_offline
                    stringify_plain None sample_world)).
    exists (Failure "offline"), sample_world, "offline", sample_world.
    split; [now apply transport_fails|reflexivity].
  - apply (proj1 (proj2 (retrieve_undefined_iff_failure URI.base fetch_offline
                           stringify_symbol None sample_world)) TypeError).
    exists (Failure "offline"), sample_world, sample_world.
    split; [now apply transport_fails|reflexivity].
  - eexists.
    apply (proj2 (proj2 (retrieve_undefined_iff_failure URI.base fetch_no_body
                           stringify_plain None sample_world)) _).
    exists {| status := 200; statusText := "OK"; json := mret JUndefined |},
      sample_world, JUndefined, sample_world, sample_world.
    split; [reflexivity|]. split; [unfold ok_status; simpl; lia|].
    split; reflexivity.
Defined.

(** X12. [getRecords] never resolves with [undefined] (an absent body
    becomes the empty array); on a status outside [200, 300) it rejects
    with [Error(statusText)] without reading the body; and what the
    transport rejects with is passed on as it is. *)
Theorem getRecords_outcome (fetch : string → Comp response) url w :
  (∀ v w', getRecords fetch url w = (Returned v, w') → v ≠ JUndefined) ∧
  (∀ r w1, fetch url w = (Returned r, w1) → ¬ ok_status r →
           getRecords fetch url w = (Thrown (Error (statusText r)), w1)) ∧
  (∀ e w1, fetch url w = (Thrown e, w1) →
           getRecords fetch url w = (Thrown e, w1)).
Proof.
  rewrite getRecords_unfold. split; [|split].
  - intros v w'.
    destruct (fetch url w) as [[r|e] w1]; [|discriminate].
    destruct (verifyStatus r w1) as [[v0|e] w2]; [|discriminate].
    intros [= <- _]. now destruct v0.
  - intros r w1 -> Hs. now rewrite verifyStatus_error.
  - now intros e w1 ->.
Qed.

Lemma getRecords_outcome_witness :
  getRecords fetch_no_body "u" sample_world
  = (Returned (JArray []), sample_world) ∧
  JArray [] ≠ JUndefined ∧
  getRecords fetch_not_found "u" sample_world
  = (Thrown (Error "Not Found"), sample_world).
Proof.
  split; [reflexivity|]. split.
  - apply (proj1 (getRecords_outcome fetch_no_body "u" sample_world)
             (JArray []) sample_world).
    reflexivity.
  - apply (proj1 (proj2 (getRecords_outcome fetch_not_found "u" sample_world))
             {| status := 404; statusText := "Not Found"; json := mret JNull |}
             sample_world); [reflexivity|].
    unfold ok_status. simpl. lia.
Defined.

(** ** The options and the page *)

(** X13. A [limit] given in the options changes the request only: the
    transformer always uses the default limit of 10. With the same
    answer of the transport [retrieve] returns the same for any
    [limit] option, the page has [min(records.length, 10)] ids, and
    [nextPage] is [null] exactly when the answer has at most 10
    records. *)
Theorem retrieve_ignores_limit
    (uri_toString : URI.t → string) (fetch : string → Comp response)
    (stringify : exn → Comp string)
    (o : Options.t) (w : world) :
  Query.limit (buildUrlOpts o)
  = num_add (Num (default 10 (Options.limit o))) (Num 1) ∧
  (∀ limit',
     let o' := {| Options.page := Options.page o;
                  Options.colors := Options.colors o;
                  Options.limit := limit' |} in
     fetch (request_url uri_toString (Some o')) w
     = fetch (request_url uri_toString (Some o)) w →
     retrieve uri_toString fetch stringify (Some o') w
     = retrieve uri_toString fetch stringify (Some o) w) ∧
  (∀ r w1 a w2 rs,
     fetch (request_url uri_toString (Some o)) w = (Returned r, w1) →
     ok_status r →
     json r w1 = (Returned (JArray a), w2) →
     holds (store w2) a rs →
     ∃ page w3,
       retrieve uri_toString fetch stringify (Some o) w
       = (Returned (Some page), w3) ∧
       Z.of_nat (length (Page.ids page)) = Z.min (Z.of_nat (length a)) 10 ∧
       (Page.nextPage page = None ↔ Z.of_nat (length a) ≤ 10)).
Proof.
  split; [reflexivity|]. split.
  - intros limit' o' Hf.
    rewrite !retrieve_unfold, !getRecords_unfold, Hf. reflexivity.
  - intros r w1 a w2 rs Hf Hs Hj H. eexists _, _.
    split; [exact (retrieve_returns _ _ _ _ _ _ _ _ _ _ Hf Hs Hj H)|].
    cbn [Page.ids Page.nextPage]. split.
    + rewrite length_map, length_take, <- (holds_length _ _ _ H). lia.
    + destruct (Z.leb_spec (Z.of_nat (length a)) 10); split;
        intros; (reflexivity || lia || discriminate).
Qed.

Lemma retrieve_ignores_limit_witness :
  let o := {| Options.page := None;
              Options.colors := None;
              Options.limit := Some 2 |} in
  Query.limit (buildUrlOpts o) = Num 3 ∧
  ∃ page w3,
    retrieve URI.base fetch_sample stringify_plain (Some o) sample_world
    = (Returned (Some page), w3) ∧
    Z.of_nat (length (Page.ids page)) = 3 ∧
    Page.nextPage page = None.
Proof.
  intros o. split; [reflexivity|].
  destruct (proj2 (proj2 (retrieve_ignores_limit URI.base fetch_sample
                            stringify_plain o sample_world))
              {| status := 200; statusText := "OK";
                 json := mret (JArray [1; 2; 3]%positive) |}
              sample_world [1; 2; 3]%positive sample_world sample_records)
    as (page & w3 & Hrun & Hlen & Hnext).
  - reflexivity.
  - unfold ok_status. simpl. lia.
  - reflexivity.
  - repeat constructor.
  - exists page, w3. split; [exact Hrun|]. split; [exact Hlen|].
    apply Hnext. simpl. lia.
Defined.

Lemma page_or_1_eq_1 page :
  page_or_1 page = 1 ↔ page = None ∨ page = Some 0 ∨ page = Some 1.
Proof.
  destruct page as [p|]; simpl.
  - destruct (Z.eqb_spec p 0) as [->|Hp].
    + split; [intros _; right; now left|reflexivity].
    + split; [intros ->; right; now right|].
      intros [[=]|[[=]|[=]]]; congruence.
  - split; [now left|reflexivity].
Qed.

Lemma page_or_1_other p : p ≠ 0 → page_or_1 (Some p) = p.
Proof. intros Hp. simpl. now destruct (Z.eqb_spec p 0). Qed.

(** X14. [retrieve] takes page 0 and an absent page for page 1 when it
    formats the answer: [previousPage] is [null] exactly for an absent
    page, page 0 and page 1, and [page - 1], the difference the program
    computes, otherwise. The request is built from the page as given,
    so page 0 asks for offset [- limit] (for a limit below [2 ^ 53])
    where page 1 and an absent page ask for offset 0. *)
Theorem retrieve_falsy_page
    (uri_toString : URI.t → string) (fetch : string → Comp response)
    (stringify : exn → Comp string)
    (o : Options.t) (w : world) r w1 a w2 rs :
  fetch (request_url uri_toString (Some o)) w = (Returned r, w1) →
  ok_status r →
  json r w1 = (Returned (JArray a), w2) →
  holds (store w2) a rs →
  ∃ page w3,
    retrieve uri_toString fetch stringify (Some o) w
    = (Returned (Some page), w3) ∧
    (Page.previousPage page = None ↔
     Options.page o = None ∨ Options.page o = Some 0 ∨
     Options.page o = Some 1) ∧
    (∀ p, Options.page o = Some p → p ≠ 0 → p ≠ 1 →
          Page.previousPage page = Some (num_sub (Num p) (Num 1)) ∧
          (Z.abs p < 2 ^ 53 → num_sub (Num p) (Num 1) = Num (p - 1))) ∧
    (Options.page o = Some 0 →
     Z.abs (default 10 (Options.limit o)) < 2 ^ 53 →
     Query.offset (buildUrlOpts o) = Num (- default 10 (Options.limit o))) ∧
    (Options.page o = None ∨ Options.page o = Some 1 →
     Query.offset (buildUrlOpts o) = Num 0).
Proof.
  intros Hf Hs Hj H. eexists _, _.
  split; [exact (retrieve_returns _ _ _ _ _ _ _ _ _ _ Hf Hs Hj H)|].
  cbn [Page.previousPage default]. unfold id.
  split; [|split; [|split]].
  - rewrite <- page_or_1_eq_1.
    destruct (Z.eqb_spec (page_or_1 (Options.page o)) 1); split;
      intros; (reflexivity || assumption || discriminate || contradiction).
  - intros p Hp H0 H1. split; [|apply num_sub_1_exact].
    rewrite Hp, page_or_1_other by assumption.
    destruct (Z.eqb_spec p 1); [contradiction|reflexivity].
  - intros Hp HL. unfold buildUrlOpts. rewrite Hp.
    cbn [Query.offset]. change defaults.limit with 10.
    set (L := from_option _ 10 (Options.limit o)) in *. clearbody L.
    cbn [default]. unfold id.
    rewrite calcOffset_exact; [f_equal; lia|simpl; lia|lia].
  - intros Hp. unfold buildUrlOpts, calcOffset.
    destruct Hp as [-> | ->]; reflexivity.
Qed.

Lemma retrieve_falsy_page_witness :
  let o := {| Options.page := Some 0;
              Options.colors := None;
              Options.limit := None |} in
  ∃ page w3,
    retrieve URI.base fetch_sample stringify_plain (Some o) sample_world
    = (Returned (Some page), w3) ∧
    Page.previousPage page = None ∧
    Query.offset (buildUrlOpts o) = Num (-10).
Proof.
  intros o.
  destruct (retrieve_falsy_page URI.base fetch_sample stringify_plain o
              sample_world
              {| status := 200; statusText := "OK";
                 json := mret (JArray [1; 2; 3]%positive) |}
              sample_world [1; 2; 3]%positive sample_world sample_records)
    as (page & w3 & Hrun & Hprev & _ & Hoff & _).
  - reflexivity.
  - unfold ok_status. simpl. lia.
  - reflexivity.
  - repeat constructor.
  - exists page, w3. split; [exact Hrun|]. split.
    + apply Hprev. right. now left.
    + apply Hoff; [reflexivity|simpl; lia].
Defined.

(** X15. An answer with a good status and no body, or with an empty
    array, makes [retrieve] resolve with an empty page, not with
    [undefined]; nothing is logged and nothing is written. *)
Theorem retrieve_no_records
    (uri_toString : URI.t → string) (fetch : string → Comp response)
    (stringify : exn → Comp string)
    (options : option Options.t) (w : world) r w1 v w2 :
  fetch (request_url uri_toString options) w = (Returned r, w1) →
  ok_status r →
  json r w1 = (Returned v, w2) →
  v = JUndefined ∨ v = JArray [] →
  ∃ page,
    retrieve uri_toString fetch stringify options w
    = (Returned (Some page), w2) ∧
    Page.ids page = [] ∧ Page.open page = [] ∧
    Page.closedPrimaryCount page = 0 ∧ Page.nextPage page = None.
Proof.
  intros Hf Hs Hj Hv.
  assert (orEmpty v = JUndefined ∨ orEmpty v = JArray []) as Hv'
    by (destruct Hv as [-> | ->]; now right).
  eexists. split.
  - apply (retrieve_success _ _ _ _ _ r w1 v w2); try assumption.
    exact (formatFinal_empty_run _ _ _ _ Hv').
  - now repeat split.
Qed.

Lemma retrieve_no_records_witness :
  ∃ page,
    retrieve URI.base fetch_no_body stringify_plain None sample_world
    = (Returned (Some page), sample_world) ∧
    Page.ids page = [] ∧ Page.open page = [] ∧
    Page.closedPrimaryCount page = 0 ∧ Page.nextPage page = None.
Proof.
  apply (retrieve_no_records URI.base fetch_no_body stringify_plain None
           sample_world
           {| status := 200; statusText := "OK"; json := mret JUndefined |}
           sample_world JUndefined sample_world).
  - reflexivity.
  - unfold ok_status. simpl. lia.
  - reflexivity.
  - now left.
Defined.
